(** * Sound Canvas: a shallow embedding of the core TypeScript modules

    The development follows the repository module by module:
    - [JS]              the ECMAScript primitives the code relies on;
    - [AudioProcessor]  src/lib/audioProcessor.ts (feature extraction);
    - [JSON]            the platform's [JSON.parse];
    - [StorageService]  the localStorage-backed persistence layer;
    - [VisualMapper]    the mapping cache and its seeded generator;
    - [ExportUtils]     the per-pixel CMYK round trip;
    - [Renderer]        entities, draw calls and loops shared by the renderers;
    - [LegacyRenderer]  src/lib/visualRenderer.ts (no fade options);
    - [VisualRenderer]  the renderer with the fade options;
    - [Spec], [Sample]  the vocabulary of the specification and sample inputs.
    The properties follow the definitions, one section per topic.

    Numbers.  An ECMAScript number is an IEEE-754 double.  Every finite
    double is a rational, and the embedding computes with rationals ([Q]).
    The mapping generator floors its products to table indices and colour
    components, so there every operation is rounded to the nearest double
    ([JS.double]); elsewhere the arithmetic is exact and rounding error is
    not modelled.  The non-finite results that the code can produce (a
    division by zero) are kept apart in [JS.number].  Integers that the
    code treats as 32-bit values are [Z] with the wrap-around written out.

    Effects.  Mutable objects are passed and returned explicitly.  What
    the platform supplies from outside (random numbers, clock readings,
    identifiers, dates) is read from streams indexed by the number of calls
    made so far; a call that may throw returns a [JS.outcome]. *)

From Stdlib Require Import ZArith QArith Qpower Qround Qminmax Qabs Qreals Reals Lia Lra Lqa.
From Stdlib Require Import Strings.String Strings.Ascii Strings.Byte DecimalString.
From Stdlib Require DecimalPos.
From stdpp Require Import gmap strings list.

Local Open Scope Z_scope.
Local Open Scope Q_scope.

(* ===================================================================== *)
(** * ECMAScript primitives *)
(* ===================================================================== *)

Module JS.

(** A number: a finite value, or one of the three non-finite doubles. *)
Inductive number : Type :=
| Finite (q : Q)
| NaN
| PosInfinity
| NegInfinity.

(** [a / b] on finite operands.  The divisors of this program are array
    lengths, so a zero divisor is [+0]. *)
Definition div (a b : Q) : number :=
  if Qeq_bool b 0 then
    (if Qeq_bool a 0 then NaN
     else if Qle_bool 0 a then PosInfinity else NegInfinity)
  else Finite (a / b).

(** [Math.floor], [Math.min], [Math.max], [Math.abs] on finite numbers. *)
Definition floor (q : Q) : Z := Qfloor q.
Definition min (a b : Q) : Q := if Qle_bool a b then a else b.
Definition max (a b : Q) : Q := if Qle_bool a b then b else a.
Definition abs (z : Z) : Z := Z.abs z.

(** [Math.round]: the nearest integer, ties towards +infinity. *)
Definition round (q : Q) : Z := Qfloor (q + (1 # 2)).

(** [a < b] and [a >= b] as the code tests them. *)
Definition lt (a b : Q) : bool := negb (Qle_bool b a).
Definition ge (a b : Q) : bool := Qle_bool b a.
Definition gt (a b : Q) : bool := negb (Qle_bool a b).

(** The result of [Math.sqrt]: a real, or NaN / +Infinity. *)
Inductive real_number : Type :=
| RFinite (r : R)
| RNaN
| RPosInfinity.

Definition sqrt (x : number) : real_number :=
  match x with
  | Finite q => if Qle_bool 0 q then RFinite (R_sqrt.sqrt (Q2R q)) else RNaN
  | NaN => RNaN
  | PosInfinity => RPosInfinity
  | NegInfinity => RNaN
  end.

(** ToInt32: the value of a number as a signed 32-bit integer. *)
Definition toInt32 (z : Z) : Z := ((z + 2 ^ 31) mod 2 ^ 32 - 2 ^ 31)%Z.

(** [a << n] and [a & b] on 32-bit operands. *)
Definition shl (a n : Z) : Z := toInt32 (Z.shiftl (toInt32 a) n).
Definition band (a b : Z) : Z := toInt32 (Z.land (toInt32 a) (toInt32 b)).

(** [a % b]: the remainder takes the sign of the dividend. *)
Definition rem (a b : Z) : Z := Z.rem a b.

(** Number-to-string conversion of an integer (decimal digits, a leading
    minus sign for negative values), as a template literal performs it. *)
Definition intToString (z : Z) : string := NilZero.string_of_int (Z.to_int z).

(** Number-to-string conversion at the values this program prints:
    integral finite numbers and the non-finite ones. *)
Definition toString (x : number) : string :=
  match x with
  | Finite q => intToString (Qfloor q)
  | NaN => "NaN"
  | PosInfinity => "Infinity"
  | NegInfinity => "-Infinity"
  end.

(** [s.charCodeAt(i)] for every index of [s]: the code units of [s]. *)
Definition charCodes (s : string) : list Z :=
  List.map (fun c => Z.of_N (N_of_ascii c)) (list_ascii_of_string s).

(** [parseInt] of a string of decimal digits. *)
Definition digitValue (c : ascii) : Z := (Z.of_N (N_of_ascii c) - 48)%Z.
Definition parseDigits (ds : list ascii) : Z :=
  List.fold_left (fun acc c => (acc * 10 + digitValue c)%Z) ds 0%Z.

(** Outcome of a call that may throw.  [IndexSizeError] is the DOMException
    that the 2D context raises for a negative radius. *)
Inductive error : Type := SyntaxError | TypeError | IndexSizeError.
Inductive outcome (A : Type) : Type :=
| Return (a : A)
| Throw (e : error).
Arguments Return {A} a.
Arguments Throw {A} e.

Definition bind {A B : Type} (m : outcome A) (k : A -> outcome B) : outcome B :=
  match m with
  | Return a => k a
  | Throw e => Throw e
  end.

(** [x < q] for a result of [Math.sqrt] and a finite number; a comparison
    with NaN is false. *)
Definition rlt (x : real_number) (q : Q) : bool :=
  match x with
  | RFinite r => if Rlt_dec r (Q2R q) then true else false
  | RNaN => false
  | RPosInfinity => false
  end.

(** ** Rounding to the nearest double

    The result of an arithmetic operation is the double nearest to the
    exact result, ties going to the even significand: an integer multiple
    of [2 ^ e] with a significand of 53 bits, [e] being at least -1074.
    (No number of this program comes near the overflow threshold 2^1024.) *)

(** The integer nearest to [q], ties to the even one. *)
Definition roundHalfEven (q : Q) : Z :=
  let n := Qfloor q in
  match Qcompare (q - inject_Z n) (1 # 2) with
  | Lt => n
  | Gt => (n + 1)%Z
  | Eq => if Z.even n then n else (n + 1)%Z
  end.

(** The integer [k] with [2 ^ k <= q < 2 ^ (k + 1)], for [q > 0]. *)
Definition ilog2 (q : Q) : Z :=
  let k := (Z.log2 (Qnum q) - Z.log2 (Zpos (Qden q)))%Z in
  if Qle_bool (2 ^ k) q then k else (k - 1)%Z.

(** The exponent of the last bit of the significand of the doubles around [q]. *)
Definition ulpExponent (q : Q) : Z := Z.max (-1074) (ilog2 (Qabs q) - 52).

(** The multiple of [2 ^ e] nearest to [q]. *)
Definition roundAt (e : Z) (q : Q) : Q := inject_Z (roundHalfEven (q / 2 ^ e)) * 2 ^ e.

Definition double (q : Q) : Q :=
  if Qeq_bool q 0 then 0 else Qred (roundAt (ulpExponent q) q).

(** [a * b], [a + b] and [a / b] (for [b] other than 0) on doubles. *)
Definition fmul (a b : Q) : Q := double (a * b).
Definition fadd (a b : Q) : Q := double (a + b).
Definition fdiv (a b : Q) : Q := double (a / b).

End JS.

(* ===================================================================== *)
(** * audioProcessor.ts *)
(* ===================================================================== *)

Module AudioProcessor.

Record AudioFeatures : Type := {
  frequency : Q;
  amplitude : Q;
  lowFreq : Q;
  midFreq : Q;
  highFreq : Q;
  signature : string
}.

(** [initialize] sets [fftSize = 2048]; an analyser has [fftSize / 2]
    frequency bins, and both buffers are allocated with that length. *)
Definition fftSize : Z := 2048.
Definition frequencyBinCount : Z := (fftSize / 2)%Z.

(** A [Uint8Array]: every entry is a byte. *)
Definition Uint8Array : Type := list Byte.byte.
Definition entry (b : Byte.byte) : Q := inject_Z (Z.of_N (Byte.to_N b)).
Definition len {A : Type} (l : list A) : Q := inject_Z (Z.of_nat (List.length l)).

(** The accumulation loop of [calculateAmplitude]. *)
Definition normalized (b : Byte.byte) : Q := (entry b - 128) / 128.
Definition sumSquares (data : Uint8Array) : Q :=
  List.fold_left (fun sum b => sum + normalized b * normalized b) data 0.

Definition calculateAmplitude (data : Uint8Array) : JS.real_number :=
  JS.sqrt (JS.div (sumSquares data) (len data)).

(** The three summation loops of [getFrequencyBands] run over the index
    ranges [0, lowEnd), [lowEnd, midEnd) and [midEnd, length). *)
Definition sumRange (bins : Uint8Array) (from to : Z) : Q :=
  List.fold_left (fun acc b => acc + entry b)
    (List.firstn (Z.to_nat (to - from)) (List.skipn (Z.to_nat from) bins)) 0.

Record Bands : Type := { low : JS.number; mid : JS.number; high : JS.number }.

Definition getFrequencyBands (frequencyBins : option Uint8Array) : Bands :=
  match frequencyBins with
  | None => {| low := JS.Finite 0; mid := JS.Finite 0; high := JS.Finite 0 |}
  | Some bins =>
      let n := Z.of_nat (List.length bins) in
      let lowEnd := JS.floor (inject_Z n * (1 # 10)) in
      let midEnd := JS.floor (inject_Z n * (4 # 10)) in
      {| low := JS.div (sumRange bins 0 lowEnd) (inject_Z lowEnd);
         mid := JS.div (sumRange bins lowEnd midEnd) (inject_Z (midEnd - lowEnd));
         high := JS.div (sumRange bins midEnd n) (inject_Z (n - midEnd)) |}
  end.

(** [Math.floor(x / w) * w] *)
Definition bucket (w : Z) (x : JS.number) : JS.number :=
  match x with
  | JS.Finite q => JS.Finite (inject_Z (JS.floor (q / inject_Z w) * w))
  | other => other
  end.

Definition generateSignature (freq low mid high : JS.number) : string :=
  let freqBucket := bucket 50 freq in
  let lowBucket := bucket 20 low in
  let midBucket := bucket 20 mid in
  let highBucket := bucket 20 high in
  (JS.toString freqBucket ++ "-" ++ JS.toString lowBucket ++ "-" ++
   JS.toString midBucket ++ "-" ++ JS.toString highBucket)%string.

(** ** getDominantFrequency

    The loop keeps the largest value seen so far and the index at which
    it was first exceeded; [counter] is the loop variable [i]. *)
Record Peak : Type := { maxValue : Q; maxIndex : Z; counter : Z }.

Definition peakStep (s : Peak) (b : Byte.byte) : Peak :=
  if JS.gt (entry b) (maxValue s)
  then {| maxValue := entry b; maxIndex := counter s; counter := (counter s + 1)%Z |}
  else {| maxValue := maxValue s; maxIndex := maxIndex s; counter := (counter s + 1)%Z |}.

Definition peakLoop (bins : Uint8Array) : Peak :=
  List.fold_left peakStep bins {| maxValue := 0; maxIndex := 0%Z; counter := 0%Z |}.

(** [sampleRate] is [audioContext.sampleRate]; [None] is a null field. *)
Definition getDominantFrequency (frequencyBins : option Uint8Array) (sampleRate : option Q)
  : JS.number :=
  match frequencyBins, sampleRate with
  | Some bins, Some rate =>
      let nyquist := rate / 2 in
      JS.div (inject_Z (maxIndex (peakLoop bins)) * nyquist) (len bins)
  | _, _ => JS.Finite 0
  end.

(** ** getAudioFeatures

    The analyser node holds the current byte data of the signal;
    [getByteTimeDomainData(array)] and [getByteFrequencyData(array)] copy
    it into [array], as many entries as fit. *)
Record AnalyserNode : Type := {
  byteTimeDomainData : Uint8Array;
  byteFrequencyData : Uint8Array
}.

Definition copyInto (source target : Uint8Array) : Uint8Array :=
  (List.firstn (List.length target) source ++ List.skipn (List.length source) target)%list.

(** The fields of the class; [audioContext] holds the sample rate. *)
Record Processor : Type := {
  audioContext : option Q;
  analyser : option AnalyserNode;
  dataArray : option Uint8Array;
  frequencyBins : option Uint8Array;
  isActive : bool
}.

(** The features as they are computed: the numbers before they are known
    to be finite, the amplitude a square root. *)
Module Measured.
Record t : Type := {
  frequency : JS.number;
  amplitude : JS.real_number;
  lowFreq : JS.number;
  midFreq : JS.number;
  highFreq : JS.number;
  signature : string
}.
End Measured.

Definition getAudioFeatures (p : Processor) : option Measured.t * Processor :=
  match analyser p, dataArray p, frequencyBins p, isActive p with
  | Some node, Some data, Some bins, true =>
      let data := copyInto (byteTimeDomainData node) data in
      let bins := copyInto (byteFrequencyData node) bins in
      let p := {| audioContext := audioContext p;
                  analyser := analyser p;
                  dataArray := Some data;
                  frequencyBins := Some bins;
                  isActive := isActive p |} in
      let amplitude := calculateAmplitude data in
      if JS.rlt amplitude (1 # 10) then (None, p)
      else
        let dominantFrequency := getDominantFrequency (frequencyBins p) (audioContext p) in
        let bands := getFrequencyBands (frequencyBins p) in
        let signature :=
          generateSignature dominantFrequency (low bands) (mid bands) (high bands) in
        (Some {| Measured.frequency := dominantFrequency;
                 Measured.amplitude := amplitude;
                 Measured.lowFreq := low bands;
                 Measured.midFreq := mid bands;
                 Measured.highFreq := high bands;
                 Measured.signature := signature |}, p)
  | _, _, _, _ => (None, p)
  end.

(** [stop()]: the nodes are disconnected and closed, the fields stay. *)
Definition stop (p : Processor) : Processor :=
  {| audioContext := audioContext p;
     analyser := analyser p;
     dataArray := dataArray p;
     frequencyBins := frequencyBins p;
     isActive := false |}.

End AudioProcessor.

(* ===================================================================== *)
(** * JSON.parse *)
(* ===================================================================== *)

(** The platform's [JSON.parse], following the JSON grammar (ECMA-404):
    a value surrounded by optional white space and nothing else.  Number
    tokens are kept as their lexeme; strings are decoded to code units. *)
Module JSON.

#[warnings="-register-all"]
Inductive value : Type :=
| JNull
| JBool (b : bool)
| JNumber (lexeme : list ascii)
| JString (codeUnits : list Z)
| JArray (items : list value)
| JObject (members : list (list Z * value)).

Inductive presult (A : Type) : Type :=
| POk (a : A) (rest : list ascii)
| PError
| PFuel.
Arguments POk {A} a rest.
Arguments PError {A}.
Arguments PFuel {A}.

Definition code (c : ascii) : Z := Z.of_N (N_of_ascii c).

Definition isWs (c : ascii) : bool :=
  let n := code c in
  (n =? 32)%Z || (n =? 9)%Z || (n =? 10)%Z || (n =? 13)%Z.

Definition isDigit (c : ascii) : bool :=
  let n := code c in (48 <=? n)%Z && (n <=? 57)%Z.

Definition hexValue (c : ascii) : option Z :=
  let n := code c in
  if (48 <=? n)%Z && (n <=? 57)%Z then Some (n - 48)%Z
  else if (97 <=? n)%Z && (n <=? 102)%Z then Some (n - 87)%Z
  else if (65 <=? n)%Z && (n <=? 70)%Z then Some (n - 55)%Z
  else None.

Fixpoint skipWs (cs : list ascii) : list ascii :=
  match cs with
  | c :: r => if isWs c then skipWs r else cs
  | [] => []
  end.

Fixpoint spanDigits (cs : list ascii) : list ascii * list ascii :=
  match cs with
  | c :: r =>
      if isDigit c then let '(ds, rest) := spanDigits r in (c :: ds, rest)
      else ([], cs)
  | [] => ([], [])
  end.

(** One or more digits. *)
Definition digits1 (cs : list ascii) : option (list ascii * list ascii) :=
  match spanDigits cs with
  | ([], _) => None
  | (ds, rest) => Some (ds, rest)
  end.

(** number = [ "-" ] int [ frac ] [ exp ] *)
Definition parseInt (cs : list ascii) : option (list ascii * list ascii) :=
  match cs with
  | "0"%char :: r => Some (["0"%char], r)
  | _ => digits1 cs
  end.

Definition parseFrac (cs : list ascii) : option (list ascii * list ascii) :=
  match cs with
  | "."%char :: r =>
      match digits1 r with
      | Some (ds, rest) => Some ("."%char :: ds, rest)
      | None => None
      end
  | _ => Some ([], cs)
  end.

Definition parseExp (cs : list ascii) : option (list ascii * list ascii) :=
  let expDigits (mark : list ascii) (r : list ascii) :=
    match digits1 r with
    | Some (ds, rest) => Some ((mark ++ ds)%list, rest)
    | None => None
    end in
  match cs with
  | e :: r =>
      if (code e =? 101)%Z || (code e =? 69)%Z then
        match r with
        | s :: r' =>
            if (code s =? 43)%Z || (code s =? 45)%Z then expDigits [e; s] r'
            else expDigits [e] r
        | [] => None
        end
      else Some ([], cs)
  | [] => Some ([], cs)
  end.

Definition parseNumber (cs : list ascii) : presult value :=
  let '(sign, r0) :=
    match cs with
    | "-"%char :: r => (["-"%char], r)
    | _ => ([], cs)
    end in
  match parseInt r0 with
  | None => PError
  | Some (ip, r1) =>
      match parseFrac r1 with
      | None => PError
      | Some (fp, r2) =>
          match parseExp r2 with
          | None => PError
          | Some (ep, r3) => POk (JNumber (sign ++ ip ++ fp ++ ep)%list) r3
          end
      end
  end.

(** The characters of a string after its opening quote. *)
Fixpoint parseChars (cs : list ascii) (acc : list Z) : presult (list Z) :=
  match cs with
  | [] => PError
  | c :: r =>
      if (code c =? 34)%Z then POk (List.rev acc) r
      else if (code c <? 32)%Z then PError
      else if (code c =? 92)%Z then
        match r with
        | e :: r' =>
            let simple (u : Z) := parseChars r' (u :: acc) in
            if (code e =? 34)%Z then simple 34%Z
            else if (code e =? 92)%Z then simple 92%Z
            else if (code e =? 47)%Z then simple 47%Z
            else if (code e =? 98)%Z then simple 8%Z
            else if (code e =? 102)%Z then simple 12%Z
            else if (code e =? 110)%Z then simple 10%Z
            else if (code e =? 114)%Z then simple 13%Z
            else if (code e =? 116)%Z then simple 9%Z
            else if (code e =? 117)%Z then
              match r' with
              | h1 :: h2 :: h3 :: h4 :: r'' =>
                  match hexValue h1, hexValue h2, hexValue h3, hexValue h4 with
                  | Some a, Some b, Some c', Some d =>
                      parseChars r'' ((((a * 16 + b) * 16 + c') * 16 + d)%Z :: acc)
                  | _, _, _, _ => PError
                  end
              | _ => PError
              end
            else PError
        | [] => PError
        end
      else parseChars r (code c :: acc)
  end.

Fixpoint stripPrefix (ps cs : list ascii) : option (list ascii) :=
  match ps, cs with
  | [], _ => Some cs
  | p :: ps', c :: cs' => if (code p =? code c)%Z then stripPrefix ps' cs' else None
  | _ :: _, [] => None
  end.

Definition startsWith (p : string) (cs : list ascii) : option (list ascii) :=
  stripPrefix (list_ascii_of_string p) cs.

Fixpoint parseValue (fuel : nat) (cs : list ascii) : presult value :=
  match fuel with
  | O => PFuel
  | S f =>
      let cs := skipWs cs in
      match cs with
      | [] => PError
      | c :: r =>
          if (code c =? 34)%Z then
            match parseChars r [] with
            | POk s rest => POk (JString s) rest
            | PError => PError
            | PFuel => PFuel
            end
          else if (code c =? 91)%Z then
            match skipWs r with
            | d :: r' =>
                if (code d =? 93)%Z then POk (JArray []) r'
                else
                  match parseElements f r with
                  | POk items rest => POk (JArray items) rest
                  | PError => PError
                  | PFuel => PFuel
                  end
            | [] => PError
            end
          else if (code c =? 123)%Z then
            match skipWs r with
            | d :: r' =>
                if (code d =? 125)%Z then POk (JObject []) r'
                else
                  match parseMembers f r with
                  | POk members rest => POk (JObject members) rest
                  | PError => PError
                  | PFuel => PFuel
                  end
            | [] => PError
            end
          else
            match startsWith "null" cs, startsWith "true" cs, startsWith "false" cs with
            | Some rest, _, _ => POk JNull rest
            | _, Some rest, _ => POk (JBool true) rest
            | _, _, Some rest => POk (JBool false) rest
            | None, None, None => parseNumber cs
            end
      end
  end
with parseElements (fuel : nat) (cs : list ascii) : presult (list value) :=
  match fuel with
  | O => PFuel
  | S f =>
      match parseValue f cs with
      | POk v rest =>
          match skipWs rest with
          | d :: r' =>
              if (code d =? 93)%Z then POk [v] r'
              else if (code d =? 44)%Z then
                match parseElements f r' with
                | POk vs rest' => POk (v :: vs) rest'
                | PError => PError
                | PFuel => PFuel
                end
              else PError
          | [] => PError
          end
      | PError => PError
      | PFuel => PFuel
      end
  end
with parseMembers (fuel : nat) (cs : list ascii) : presult (list (list Z * value)) :=
  match fuel with
  | O => PFuel
  | S f =>
      match skipWs cs with
      | q :: r =>
          if (code q =? 34)%Z then
            match parseChars r [] with
            | POk key rest =>
                match skipWs rest with
                | colon :: r1 =>
                    if (code colon =? 58)%Z then
                      match parseValue f r1 with
                      | POk v rest1 =>
                          match skipWs rest1 with
                          | d :: r2 =>
                              if (code d =? 125)%Z then POk [(key, v)] r2
                              else if (code d =? 44)%Z then
                                match parseMembers f r2 with
                                | POk ms rest2 => POk ((key, v) :: ms) rest2
                                | PError => PError
                                | PFuel => PFuel
                                end
                              else PError
                          | [] => PError
                          end
                      | PError => PError
                      | PFuel => PFuel
                      end
                    else PError
                | [] => PError
                end
            | PError => PError
            | PFuel => PFuel
            end
          else PError
      | [] => PError
      end
  end.

(** [JSON.parse(text)]: the value, or a SyntaxError.  Every recursive call
    of the parser consumes a character, so twice the length of the text
    is enough fuel. *)
Definition parse (text : string) : JS.outcome value :=
  let cs := list_ascii_of_string text in
  match parseValue (2 * List.length cs + 2) cs with
  | POk v rest =>
      match skipWs rest with
      | [] => JS.Return v
      | _ :: _ => JS.Throw JS.SyntaxError
      end
  | PError => JS.Throw JS.SyntaxError
  | PFuel => JS.Throw JS.SyntaxError
  end.

(** Property access [v.name] on a parsed value: [None] is [undefined];
    reading a property of [null] throws. *)
Fixpoint lookupMember (name : list Z) (members : list (list Z * value)) : option value :=
  match members with
  | [] => None
  | (k, v) :: r =>
      match lookupMember name r with
      | Some later => Some later
      | None => if decide (k = name) then Some v else None
      end
  end.

Definition getProperty (v : value) (name : string) : JS.outcome (option value) :=
  match v with
  | JNull => JS.Throw JS.TypeError
  | JObject members => JS.Return (lookupMember (JS.charCodes name) members)
  | _ => JS.Return None
  end.

End JSON.

(* ===================================================================== *)
(** * storage.ts *)
(* ===================================================================== *)

Module StorageService.

Inductive VisualType : Type := geometric | particle | brush | organic.

Record SoundMapping : Type := {
  id : string;
  soundSignature : string;
  frequencyRange : string;
  visualType : VisualType;
  colorPrimary : string;
  colorSecondary : string;
  shapeType : string;
  sizeBase : Q;
  opacityBase : Q;
  animationStyle : string;
  createdAt : string
}.

(** [getAllSoundMappings], on the text [data] that
    [localStorage.getItem(SOUND_MAPPINGS_KEY)] returned ([None] is [null]):
    [data ? JSON.parse(data) : []].  The empty string is falsy. *)
Definition getAllSoundMappings (data : option string) : JS.outcome JSON.value :=
  match data with
  | None => JS.Return (JSON.JArray [])
  | Some text =>
      if String.eqb text "" then JS.Return (JSON.JArray [])
      else JSON.parse text
  end.

(** The store seen through the declared types.  While the text under the
    key is what [saveSoundMapping] wrote ([JSON.stringify] of a
    [SoundMapping[]]), [getAllSoundMappings] returns that array; the store
    keeps the array itself, and counts the calls of [localStorage.setItem]. *)
Record Store : Type := {
  mappingsItem : option (list SoundMapping);
  setItemCalls : nat
}.

Definition storedMappings (st : Store) : list SoundMapping :=
  match mappingsItem st with
  | Some mappings => mappings
  | None => []
  end.

Definition getSoundMapping (st : Store) (signature : string) : option SoundMapping :=
  List.find (fun m => String.eqb (soundSignature m) signature) (storedMappings st).

(** [Array.prototype.findIndex]: the first index that satisfies [p], or -1. *)
Fixpoint findIndexFrom {A : Type} (p : A -> bool) (l : list A) (i : Z) : Z :=
  match l with
  | [] => (-1)%Z
  | x :: r => if p x then i else findIndexFrom p r (i + 1)%Z
  end.
Definition findIndex {A : Type} (p : A -> bool) (l : list A) : Z :=
  findIndexFrom p l 0%Z.

Definition saveSoundMapping (st : Store) (mapping : SoundMapping) : Store :=
  let mappings := storedMappings st in
  let existingIndex :=
    findIndex (fun m => String.eqb (soundSignature m) (soundSignature mapping)) mappings in
  let mappings' :=
    if (0 <=? existingIndex)%Z
    then <[Z.to_nat existingIndex := mapping]> mappings
    else (mappings ++ [mapping])%list in
  {| mappingsItem := Some mappings'; setItemCalls := S (setItemCalls st) |}.

Definition clearAllMappings (st : Store) : Store :=
  {| mappingsItem := None; setItemCalls := setItemCalls st |}.

(** ** Artworks

    The artworks live under a key of their own; as for the mappings, the
    store is seen through the declared type ([Artwork[]]) and counts the
    calls of [localStorage.setItem]. *)
Module Artwork.
Record t : Type := {
  id : string;
  title : string;
  canvasData : string;
  soundMappingsUsed : list string;
  durationSeconds : Q;
  width : Q;
  height : Q;
  createdAt : string
}.
End Artwork.

Record ArtworkStore : Type := {
  artworksItem : option (list Artwork.t);
  artworkSetItemCalls : nat
}.

Definition getAllArtworks (st : ArtworkStore) : list Artwork.t :=
  match artworksItem st with
  | Some artworks => artworks
  | None => []
  end.

Definition saveArtwork (st : ArtworkStore) (artwork : Artwork.t) : ArtworkStore :=
  let artworks := getAllArtworks st in
  {| artworksItem := Some (artworks ++ [artwork])%list;
     artworkSetItemCalls := S (artworkSetItemCalls st) |}.

Definition deleteArtwork (st : ArtworkStore) (id : string) : ArtworkStore :=
  let artworks :=
    List.filter (fun a => negb (String.eqb (Artwork.id a) id)) (getAllArtworks st) in
  {| artworksItem := Some artworks;
     artworkSetItemCalls := S (artworkSetItemCalls st) |}.

End StorageService.

(* ===================================================================== *)
(** * The gallery component *)
(* ===================================================================== *)

(** The list the gallery shows is its [artworks] state.  [loadArtworks]
    sets it to the stored artworks, reversed; [handleDelete] acts only
    when the user confirms. *)
Module Gallery.

Definition loadArtworks (st : StorageService.ArtworkStore) : list StorageService.Artwork.t :=
  List.rev (StorageService.getAllArtworks st).

Definition handleDelete (confirm : bool) (st : StorageService.ArtworkStore)
  (artworks : list StorageService.Artwork.t) (id : string)
  : StorageService.ArtworkStore * list StorageService.Artwork.t :=
  if confirm then
    let st := StorageService.deleteArtwork st id in
    (st, loadArtworks st)
  else (st, artworks).

End Gallery.

(* ===================================================================== *)
(** * The mapping cache (class VisualMapper) *)
(* ===================================================================== *)

Module VisualMapper.

Import AudioProcessor.
Abbreviation SoundMapping := StorageService.SoundMapping.
Abbreviation VisualType := StorageService.VisualType.

Definition VISUAL_TYPES : list VisualType :=
  [StorageService.geometric; StorageService.particle;
   StorageService.brush; StorageService.organic].

Definition SHAPE_TYPES (visualType : VisualType) : list string :=
  match visualType with
  | StorageService.geometric => ["circle"; "square"; "triangle"; "hexagon"; "star"; "diamond"]
  | StorageService.particle => ["dots"; "sparkles"; "burst"; "trail"; "spiral"]
  | StorageService.brush => ["soft"; "textured"; "splatter"; "calligraphy"; "spray"]
  | StorageService.organic => ["blob"; "wave"; "tentacle"; "fractal"; "flow"]
  end.

Definition ANIMATION_STYLES : list string :=
  ["pulse"; "rotate"; "expand"; "fade"; "oscillate"; "drift"].

(** [arr[i]] with [i] an integer-valued number; the fallback stands for
    [undefined] and is never reached from [createMapping]
    (lemma [index_in_range] below). *)
Definition at_index {A : Type} (arr : list A) (i : Z) (undefined : A) : A :=
  if (i <? 0)%Z then undefined else List.nth (Z.to_nat i) arr undefined.

(** ** hashSignature *)

Definition hashStep (hash char : Z) : Z :=
  let hash := (JS.shl hash 5 - hash + char)%Z in
  JS.band hash hash.

Definition hashSignature (signature : string) : Z :=
  JS.abs (List.fold_left hashStep (JS.charCodes signature) 0%Z).

(** ** createSeededRandom

    The closure captures one mutable variable, [value]; a call of the
    closure updates it and returns [value / 233280].  The seed is an
    integer ([Math.abs] of a 32-bit hash), so [value] is integral
    throughout: the product and the sum are integers (rounded above 2^53)
    and [%] on integral doubles is exact. *)
Definition createSeededRandom (seed : Z) : Z := seed.

Definition rng (value : Z) : Q * Z :=
  let value :=
    JS.rem (JS.floor (JS.fadd (JS.fmul (inject_Z value) 9301) 49297)) 233280 in
  (JS.fdiv (inject_Z value) 233280, value).


(** ** generateColor *)

Definition hsl (hue saturation lightness : Z) : string :=
  ("hsl(" ++ JS.intToString hue ++ ", " ++ JS.intToString saturation ++ "%, " ++
   JS.intToString lightness ++ "%)")%string.

Definition generateColor (value : Z) (audioFeatures : AudioFeatures) : string * Z :=
  let '(r1, value) := rng value in
  let hue := JS.floor (JS.fmul r1 360) in
  let '(r2, value) := rng value in
  let saturation := (60 + JS.floor (JS.fmul r2 40))%Z in
  let '(r3, value) := rng value in
  let lightness :=
    if JS.gt (lowFreq audioFeatures) (midFreq audioFeatures) &&
       JS.gt (lowFreq audioFeatures) (highFreq audioFeatures)
    then (35 + JS.floor (JS.fmul r3 25))%Z
    else if JS.gt (highFreq audioFeatures) (lowFreq audioFeatures) &&
            JS.gt (highFreq audioFeatures) (midFreq audioFeatures)
    then (60 + JS.floor (JS.fmul r3 25))%Z
    else (45 + JS.floor (JS.fmul r3 20))%Z in
  (hsl hue saturation lightness, value).

(** ** generateComplementaryColor

    The three regular expressions, matched at the leftmost position where
    they succeed:  /hsl\((\d+)/,  /hsl\(\d+,\s*(\d+)%/  and
    /hsl\(\d+,\s*\d+%,\s*(\d+)%/.  Each returns its capture group. *)
Definition isSpace (c : ascii) : bool :=
  let n := JSON.code c in
  ((9 <=? n)%Z && (n <=? 13)%Z) || (n =? 32)%Z || (n =? 160)%Z.

Fixpoint skipSpaces (cs : list ascii) : list ascii :=
  match cs with
  | c :: r => if isSpace c then skipSpaces r else cs
  | [] => []
  end.

Definition hueAt (cs : list ascii) : option (list ascii * list ascii) :=
  match JSON.startsWith "hsl(" cs with
  | Some r => JSON.digits1 r
  | None => None
  end.

Definition saturationAt (cs : list ascii) : option (list ascii * list ascii) :=
  match hueAt cs with
  | Some (_, r) =>
      match JSON.startsWith "," r with
      | Some r1 =>
          match JSON.digits1 (skipSpaces r1) with
          | Some (ds, r2) =>
              match JSON.startsWith "%" r2 with
              | Some r3 => Some (ds, r3)
              | None => None
              end
          | None => None
          end
      | None => None
      end
  | None => None
  end.

Definition lightnessAt (cs : list ascii) : option (list ascii * list ascii) :=
  match saturationAt cs with
  | Some (_, r) =>
      match JSON.startsWith "," r with
      | Some r1 =>
          match JSON.digits1 (skipSpaces r1) with
          | Some (ds, r2) =>
              match JSON.startsWith "%" r2 with
              | Some r3 => Some (ds, r3)
              | None => None
              end
          | None => None
          end
      | None => None
      end
  | None => None
  end.

(** [str.match(re)]: try every start position from the left. *)
Fixpoint search (matchAt : list ascii -> option (list ascii * list ascii))
  (cs : list ascii) : option (list ascii) :=
  match matchAt cs with
  | Some (capture, _) => Some capture
  | None =>
      match cs with
      | [] => None
      | _ :: r => search matchAt r
      end
  end.

Definition generateComplementaryColor (primaryColor : string) (value : Z) : string * Z :=
  let cs := list_ascii_of_string primaryColor in
  match search hueAt cs with
  | None => (primaryColor, value)
  | Some hueMatch =>
      let primaryHue := JS.parseDigits hueMatch in
      let '(r, value) := rng value in
      let hueOffset := (150 + JS.floor (JS.fmul r 60))%Z in
      let newHue := JS.rem (primaryHue + hueOffset) 360 in
      let saturation :=
        match search saturationAt cs with
        | Some satMatch => JS.parseDigits satMatch
        | None => 70%Z
        end in
      let lightness :=
        match search lightnessAt cs with
        | Some lightMatch => JS.parseDigits lightMatch
        | None => 50%Z
        end in
      (hsl newHue saturation lightness, value)
  end.

(** ** getFrequencyRange *)

Definition getFrequencyRange (freq : Q) : string :=
  if JS.lt freq 250 then "sub-bass"
  else if JS.lt freq 500 then "bass"
  else if JS.lt freq 2000 then "midrange"
  else if JS.lt freq 6000 then "upper-mid"
  else "treble".

(** ** createMapping

    [crypto.randomUUID()] and [new Date().toISOString()] are read from the
    environment: the [n]-th call returns [randomUUID n], [toISOString n]. *)
Record Environment : Type := {
  randomUUID : nat -> string;
  toISOString : nat -> string
}.

Record World : Type := {
  store : StorageService.Store;
  uuidCalls : nat;
  dateCalls : nat
}.

Definition createMapping (env : Environment) (w : World) (audioFeatures : AudioFeatures)
  : SoundMapping * World :=
  let seed := hashSignature (signature audioFeatures) in
  let value := createSeededRandom seed in
  let '(r1, value) := rng value in
  let visualType :=
    at_index VISUAL_TYPES
      (JS.floor (JS.fmul r1 (inject_Z (Z.of_nat (List.length VISUAL_TYPES)))))
      StorageService.geometric in
  let '(r2, value) := rng value in
  let shapeType :=
    at_index (SHAPE_TYPES visualType)
      (JS.floor (JS.fmul r2 (inject_Z (Z.of_nat (List.length (SHAPE_TYPES visualType))))))
      "undefined" in
  let '(r3, value) := rng value in
  let animationStyle :=
    at_index ANIMATION_STYLES
      (JS.floor (JS.fmul r3 (inject_Z (Z.of_nat (List.length ANIMATION_STYLES))))) "undefined" in
  let '(colorPrimary, value) := generateColor value audioFeatures in
  let '(colorSecondary, value) := generateComplementaryColor colorPrimary value in
  let frequencyNorm := JS.min (JS.fdiv (frequency audioFeatures) 2000) 1 in
  let '(r8, value) := rng value in
  let sizeBase := JS.fadd (JS.fadd 10 (JS.fmul frequencyNorm 40)) (JS.fmul r8 20) in
  let '(r9, value) := rng value in
  let opacityBase := JS.fadd (5 # 10) (JS.fmul r9 (JS.double (3 # 10))) in
  ({| StorageService.id := randomUUID env (uuidCalls w);
      StorageService.soundSignature := signature audioFeatures;
      StorageService.frequencyRange := getFrequencyRange (frequency audioFeatures);
      StorageService.visualType := visualType;
      StorageService.colorPrimary := colorPrimary;
      StorageService.colorSecondary := colorSecondary;
      StorageService.shapeType := shapeType;
      StorageService.sizeBase := sizeBase;
      StorageService.opacityBase := opacityBase;
      StorageService.animationStyle := animationStyle;
      StorageService.createdAt := toISOString env (dateCalls w) |},
   {| store := store w; uuidCalls := S (uuidCalls w); dateCalls := S (dateCalls w) |}).

(** ** The cache *)

Record Mapper : Type := {
  mappingCache : gmap string SoundMapping;
  world : World
}.

(** [loadExistingMappings], over the array the store holds. *)
Definition loadExistingMappings (cache : gmap string SoundMapping) (w : World)
  : gmap string SoundMapping :=
  List.fold_left (fun c mapping => <[StorageService.soundSignature mapping := mapping]> c)
    (StorageService.storedMappings (store w)) cache.

Definition new (w : World) : Mapper :=
  {| mappingCache := loadExistingMappings ∅ w; world := w |}.

Definition getOrCreateMapping (env : Environment) (m : Mapper) (audioFeatures : AudioFeatures)
  : SoundMapping * Mapper :=
  let signature := signature audioFeatures in
  match mappingCache m !! signature with
  | Some cached => (cached, m)
  | None =>
      let '(newMapping, w) := createMapping env (world m) audioFeatures in
      let cache := <[signature := newMapping]> (mappingCache m) in
      let w :=
        {| store := StorageService.saveSoundMapping (store w) newMapping;
           uuidCalls := uuidCalls w; dateCalls := dateCalls w |} in
      (newMapping, {| mappingCache := cache; world := w |})
  end.

Definition clearCache (m : Mapper) : Mapper :=
  {| mappingCache := ∅;
     world := {| store := StorageService.clearAllMappings (store (world m));
                 uuidCalls := uuidCalls (world m); dateCalls := dateCalls (world m) |} |}.

(** ** Start-up on raw stored text

    The constructor calls [loadExistingMappings], which iterates over
    whatever [getAllSoundMappings] returned: [forEach] exists on arrays
    only, and the callback reads [mapping.soundSignature] of each element.
    The result lists the [Map.set(key, element)] calls in order ([None] is
    the key [undefined]). *)
Fixpoint forEachSet (items : list JSON.value)
  : JS.outcome (list (option JSON.value * JSON.value)) :=
  match items with
  | [] => JS.Return []
  | mapping :: rest =>
      JS.bind (JSON.getProperty mapping "soundSignature") (fun key =>
      JS.bind (forEachSet rest) (fun sets =>
      JS.Return ((key, mapping) :: sets)))
  end.

Definition startupLoad (data : option string)
  : JS.outcome (list (option JSON.value * JSON.value)) :=
  JS.bind (StorageService.getAllSoundMappings data) (fun mappings =>
    match mappings with
    | JSON.JArray items => forEachSet items
    | _ => JS.Throw JS.TypeError
    end).

(** ** The mappers a session reaches

    A mapper is constructed over the world [w0] and is then used through
    [getOrCreateMapping] and [clearCache] only. *)
Inductive Reachable (env : Environment) (w0 : World) : Mapper -> Prop :=
| reach_new : Reachable env w0 (new w0)
| reach_getOrCreateMapping (m : Mapper) (audioFeatures : AudioFeatures) :
    Reachable env w0 m ->
    Reachable env w0 (snd (getOrCreateMapping env m audioFeatures))
| reach_clearCache (m : Mapper) :
    Reachable env w0 m -> Reachable env w0 (clearCache m).

End VisualMapper.

(* ===================================================================== *)
(** * exportUtils.ts: the CMYK round trip *)
(* ===================================================================== *)

Module ExportUtils.

Record CMYK : Type := { c : Q; m : Q; y : Q; k : Q }.

(** Lines 111-119: [k = 1 - Math.max(r, g, b)], then c, m, y. *)
Definition toCMYK (r g b : Q) : CMYK :=
  let k := 1 - JS.max (JS.max r g) b in
  if JS.lt k 1 then
    {| c := (1 - r - k) / (1 - k);
       m := (1 - g - k) / (1 - k);
       y := (1 - b - k) / (1 - k);
       k := k |}
  else {| c := 0; m := 0; y := 0; k := k |}.

(** A store into the [Uint8ClampedArray] clamps to 0..255. *)
Definition clamp8 (z : Z) : Z := Z.max 0 (Z.min 255 z).

(** Lines 121-123: the three channels written back. *)
Definition fromCMYK (x : CMYK) : Z * Z * Z :=
  (clamp8 (JS.round ((1 - c x) * (1 - k x) * 255)),
   clamp8 (JS.round ((1 - m x) * (1 - k x) * 255)),
   clamp8 (JS.round ((1 - y x) * (1 - k x) * 255))).

Definition convertPixel (r8 g8 b8 : Z) : Z * Z * Z :=
  fromCMYK (toCMYK (inject_Z r8 / 255) (inject_Z g8 / 255) (inject_Z b8 / 255)).

(** The loop [for (i = 0; i < data.length; i += 4)] over the RGBA bytes;
    the alpha byte is left as it is.  The data of an [ImageData] has four
    bytes per pixel; on a shorter last group the missing channels read as
    [undefined], every product is NaN, and a NaN store writes 0. *)
Fixpoint convertData (data : list Z) : list Z :=
  match data with
  | r8 :: g8 :: b8 :: a8 :: rest =>
      let '(r', g', b') := convertPixel r8 g8 b8 in
      r' :: g' :: b' :: a8 :: convertData rest
  | [r8; g8; b8] =>
      let '(r', g', b') := convertPixel r8 g8 b8 in [r'; g'; b']
  | [_; _] => [0%Z; 0%Z]
  | [_] => [0%Z]
  | [] => []
  end.

End ExportUtils.

(* ===================================================================== *)
(** * The animation engine: shared data *)
(* ===================================================================== *)

Module Renderer.

Abbreviation SoundMapping := StorageService.SoundMapping.

(** What the platform supplies: the [n]-th result of [Math.random()] and
    of [performance.now()], and the trigonometric functions (whose results
    are doubles, hence rationals). *)
Record Platform : Type := {
  Math_random : nat -> Q;
  performance_now : nat -> Q;
  Math_sin : Q -> Q;
  Math_cos : Q -> Q;
  Math_PI : Q
}.

Inductive ShapeType : Type := geometric | brush | organic.

Record AnimatedShape : Type := {
  type : ShapeType;
  mapping : SoundMapping;
  x : Q;
  y : Q;
  baseSize : Q;
  baseOpacity : Q;
  startTime : Q;
  duration : Q;
  rotation : Q;
  rotationSpeed : Q;
  scale : Q;
  scaleSpeed : Q;
  vx : Q;
  vy : Q;
  growthRate : Q;
  opacityPhase : Q
}.

Record Particle : Type := {
  px : Q;
  py : Q;
  pvx : Q;
  pvy : Q;
  size : Q;
  color : string;
  life : Q;
  decay : Q;
  pstartTime : Q;
  pduration : Q;
  protation : Q;
  protationSpeed : Q;
  pscale : Q;
  maxScale : Q
}.

(** What reaches the canvas: [renderShape(shape, size, opacity)] sets
    [globalAlpha = opacity] and draws the shape's geometry at [size] (the
    brush family scales the alpha by 0.6 while it draws); a particle is a
    disc of radius [size * scale] drawn at [globalAlpha]. *)
Inductive DrawCall : Type :=
| DrawShape (shape : AnimatedShape) (size opacity : Q)
| DrawParticle (p : Particle) (globalAlpha radius : Q).

(** Calls of [Math.random()] made while drawing a shape: the textured,
    splatter and spray brushes scatter random sub-primitives. *)
Definition drawRandomCalls (shape : AnimatedShape) : nat :=
  match type shape with
  | brush =>
      let st := StorageService.shapeType (mapping shape) in
      if String.eqb st "textured" then 20%nat
      else if String.eqb st "splatter" then 24%nat
      else if String.eqb st "spray" then 90%nat
      else 0%nat
  | _ => 0%nat
  end.

Definition randomDuration (r : Q) : Q := 1000 + r * 2000.

Definition easeInOutCubic (t : Q) : Q :=
  if JS.lt t (1 # 2) then 4 * t * t * t
  else 1 - ((-2 * t + 2) * (-2 * t + 2) * (-2 * t + 2)) / 2.

Definition easeOutQuad (t : Q) : Q := 1 - (1 - t) * (1 - t).

(** The moving part of a shape, updated in place by the loops. *)
Definition moveShape (shape : AnimatedShape) (scale' : Q) (advance : bool) : AnimatedShape :=
  {| type := type shape;
     mapping := mapping shape;
     x := if advance then x shape + vx shape * (1 / 60) else x shape;
     y := if advance then y shape + vy shape * (1 / 60) else y shape;
     baseSize := baseSize shape;
     baseOpacity := baseOpacity shape;
     startTime := startTime shape;
     duration := duration shape;
     rotation := if advance then rotation shape + rotationSpeed shape * (1 / 60)
                 else rotation shape;
     rotationSpeed := rotationSpeed shape;
     scale := scale';
     scaleSpeed := scaleSpeed shape;
     vx := vx shape;
     vy := vy shape;
     growthRate := growthRate shape;
     opacityPhase := opacityPhase shape |}.

Definition moveParticle (p : Particle) (scale' life' : Q) (advance : bool) : Particle :=
  {| px := if advance then px p + pvx p * (1 / 60) else px p;
     py := if advance then py p + pvy p * (1 / 60) else py p;
     pvx := pvx p;
     pvy := pvy p;
     size := size p;
     color := color p;
     life := life';
     decay := decay p;
     pstartTime := pstartTime p;
     pduration := pduration p;
     protation := if advance then protation p + protationSpeed p * (1 / 60)
                  else protation p;
     protationSpeed := protationSpeed p;
     pscale := scale';
     maxScale := maxScale p |}.

(** [createAnimatedShape]: eight calls of [Math.random()] from [rnd] on,
    in source order, and one of [performance.now()].  The two renderers
    differ in the initial [scale] only. *)
Definition createAnimatedShape (P : Platform) (rnd clock : nat) (scale0 : Q)
  (type : ShapeType) (mapping : SoundMapping) (x y size opacity : Q) : AnimatedShape :=
  let duration := randomDuration (Math_random P rnd) in
  let angle := Math_random P (rnd + 1) * Math_PI P * 2 in
  let speed := 20 + Math_random P (rnd + 2) * 40 in
  {| type := type;
     mapping := mapping;
     x := x;
     y := y;
     baseSize := size;
     baseOpacity := opacity;
     startTime := performance_now P clock;
     duration := duration;
     rotation := Math_random P (rnd + 3) * Math_PI P * 2;
     rotationSpeed := (Math_random P (rnd + 4) - (1 # 2)) * 2;
     scale := scale0;
     scaleSpeed := (1 # 2) + Math_random P (rnd + 5) * 1;
     vx := Math_cos P angle * speed;
     vy := Math_sin P angle * speed;
     growthRate := (3 # 10) + Math_random P (rnd + 6) * (7 # 10);
     opacityPhase := Math_random P (rnd + 7) * Math_PI P * 2 |}.

(** One iteration of the loop of [createAnimatedParticles]: seven calls of
    [Math.random()] from [rnd] on. *)
Definition createParticle (P : Platform) (rnd : nat) (mapping : SoundMapping)
  (x y size : Q) (count : Z) (now : Q) (i : Z) : Particle :=
  let angle := (Math_PI P * 2 * inject_Z i) / inject_Z count + Math_random P rnd * (2 # 10) in
  let distance := size * ((1 # 2) + Math_random P (rnd + 1) * (1 # 2)) in
  let speed := 50 + Math_random P (rnd + 2) * 100 in
  {| px := x + Math_cos P angle * distance;
     py := y + Math_sin P angle * distance;
     pvx := Math_cos P angle * speed;
     pvy := Math_sin P angle * speed;
     size := size * (2 # 10);
     color := if (JS.rem i 2 =? 0)%Z then StorageService.colorPrimary mapping
              else StorageService.colorSecondary mapping;
     life := 1;
     decay := 15 # 1000;
     pstartTime := now;
     pduration := randomDuration (Math_random P (rnd + 3));
     protation := Math_random P (rnd + 4) * Math_PI P * 2;
     protationSpeed := (Math_random P (rnd + 5) - (1 # 2)) * 4;
     pscale := 1 # 2;
     maxScale := 1 + Math_random P (rnd + 6) * (15 # 10) |}.

Definition particleCount (amplitude : Q) : Z := JS.floor (5 + amplitude * 15).

Definition createAnimatedParticles (P : Platform) (rnd : nat) (mapping : SoundMapping)
  (x y size opacity amplitude now : Q) : list Particle :=
  let count := particleCount amplitude in
  List.map (fun i : nat => createParticle P (rnd + 7 * i) mapping x y size count now (Z.of_nat i))
    (List.seq 0 (Z.to_nat count)).

(** The state threaded through one pass of an update loop. *)
Record Pass (A : Type) : Type := {
  kept : list A;
  randomCalls : nat;
  drawn : list DrawCall
}.
Arguments kept {A} _.
Arguments randomCalls {A} _.
Arguments drawn {A} _.

(** A loop [for (i = length - 1; i >= 0; i--)] that either removes the
    entry ([splice(i, 1)]) or updates and draws it: the entries are
    visited from the last to the first, the survivors keep their order. *)
Definition backwards {A : Type} (step : A -> option (A * DrawCall * nat))
  (entries : list A) (rnd : nat) (log : list DrawCall) : Pass A :=
  List.fold_right
    (fun entry acc =>
       match step entry with
       | None => acc
       | Some (entry', call, n) =>
           {| kept := entry' :: kept acc;
              randomCalls := (randomCalls acc + n)%nat;
              drawn := (drawn acc ++ [call])%list |}
       end)
    {| kept := []; randomCalls := rnd; drawn := log |}
    entries.

(** The results of [f] on the entries where it yields one. *)
Fixpoint collect {A B : Type} (f : A -> option B) (l : list A) : list B :=
  match l with
  | [] => []
  | a :: r =>
      match f a with
      | Some b => b :: collect f r
      | None => collect f r
      end
  end.

(** What one iteration keeps and what it draws. *)
Definition keptOf {A : Type} (step : A -> option (A * DrawCall * nat)) (entry : A) : option A :=
  match step entry with
  | Some (entry', _, _) => Some entry'
  | None => None
  end.

Definition callOf {A : Type} (step : A -> option (A * DrawCall * nat)) (entry : A)
  : option DrawCall :=
  match step entry with
  | Some (_, call, _) => Some call
  | None => None
  end.

(** ** Loops that a throwing draw leaves

    [createRadialGradient] and [arc] throw an [IndexSizeError] when they
    are given a negative radius, and nothing in the renderer catches it.
    One iteration of an update loop then has three outcomes: the entry is
    spliced out; it is updated and drawn; or it is updated and the drawing
    throws. *)
Inductive Iteration (A : Type) : Type :=
| Splice
| Draw (entry' : A) (call : DrawCall) (randomCalls : nat)
| Abort (entry' : A) (e : JS.error).
Arguments Splice {A}.
Arguments Draw {A} entry' call randomCalls.
Arguments Abort {A} entry' e.

Record Attempt (A : Type) : Type := {
  left : list A;
  randomsRead : nat;
  painted : list DrawCall;
  raised : option JS.error
}.
Arguments left {A} _.
Arguments randomsRead {A} _.
Arguments painted {A} _.
Arguments raised {A} _.

(** The loop [for (i = length - 1; i >= 0; i--)] again: the entries are
    visited from the last to the first; once an iteration has thrown, the
    entries before it are not visited and stay as they are. *)
Definition backwardsUntilThrow {A : Type} (step : A -> Iteration A)
  (entries : list A) (rnd : nat) (log : list DrawCall) : Attempt A :=
  List.fold_right
    (fun entry acc =>
       match raised acc with
       | Some _ =>
           {| left := entry :: left acc;
              randomsRead := randomsRead acc;
              painted := painted acc;
              raised := raised acc |}
       | None =>
           match step entry with
           | Splice => acc
           | Draw entry' call n =>
               {| left := entry' :: left acc;
                  randomsRead := (randomsRead acc + n)%nat;
                  painted := (painted acc ++ [call])%list;
                  raised := None |}
           | Abort entry' e =>
               {| left := entry' :: left acc;
                  randomsRead := randomsRead acc;
                  painted := painted acc;
                  raised := Some e |}
           end
       end)
    {| left := []; randomsRead := rnd; painted := log; raised := None |}
    entries.



(** [easeInOutQuad] (defined by both renderers, used by neither loop). *)
Definition easeInOutQuad (t : Q) : Q :=
  if JS.lt t (1 # 2) then 2 * t * t
  else 1 - ((-2 * t + 2) * (-2 * t + 2)) / 2.

(** ** Drawing

    The calls made on the 2D context, in order.  [ScaleGlobalAlpha f] is
    [globalAlpha *= f]; [FillRadialGradient r c0 c1] is the radial
    gradient of radius [r] around the origin with the colour stops [c0]
    at 0 and [c1] at 1, assigned to [fillStyle]. *)
Inductive CanvasOp : Type :=
| Save
| Restore
| SetGlobalAlpha (alpha : Q)
| ScaleGlobalAlpha (factor : Q)
| Translate (x y : Q)
| Rotate (angle : Q)
| FillRadialGradient (radius : Q) (c0 c1 : string)
| StrokeStyleFromFill
| SetLineWidth (width : Q)
| SetLineCapRound
| BeginPath
| ClosePath
| Fill
| Stroke
| MoveTo (x y : Q)
| LineTo (x y : Q)
| Arc (x y radius startAngle endAngle : Q)
| Rect (x y w h : Q)
| QuadraticCurveTo (cpx cpy x y : Q).

(** The loop variable [i] as a number. *)
Definition num (i : nat) : Q := inject_Z (Z.of_nat i).

Definition drawPolygon (P : Platform) (sides : nat) (size : Q) : list CanvasOp :=
  (List.map
     (fun i : nat =>
        let angle := (Math_PI P * 2 * num i) / num sides - Math_PI P / 2 in
        let x := Math_cos P angle * size in
        let y := Math_sin P angle * size in
        if (i =? 0)%nat then MoveTo x y else LineTo x y)
     (List.seq 0 sides) ++ [ClosePath])%list.

Definition drawStar (P : Platform) (size : Q) : list CanvasOp :=
  (List.map
     (fun i : nat =>
        let angle := (Math_PI P * 2 * num i) / 10 - Math_PI P / 2 in
        let radius := if (JS.rem (Z.of_nat i) 2 =? 0)%Z then size else size * (5 # 10) in
        let x := Math_cos P angle * radius in
        let y := Math_sin P angle * radius in
        if (i =? 0)%nat then MoveTo x y else LineTo x y)
     (List.seq 0 10) ++ [ClosePath])%list.

Definition drawBlob (P : Platform) (animationTime x y size : Q) : list CanvasOp :=
  let points := 8 in
  MoveTo (x + size) y ::
  List.map
    (fun i : nat =>
       let angle := (Math_PI P * 2 * num i) / points in
       let variance := (7 # 10) + Math_sin P (animationTime * 2 + num i) * (3 # 10) in
       let radius := size * variance in
       let px := x + Math_cos P angle * radius in
       let py := y + Math_sin P angle * radius in
       let nextRadius :=
         size * ((7 # 10) + Math_sin P (animationTime * 2 + num i + 1) * (3 # 10)) in
       let cpx := x + Math_cos P (angle + Math_PI P / points) * ((radius + nextRadius) / 2) in
       let cpy := y + Math_sin P (angle + Math_PI P / points) * ((radius + nextRadius) / 2) in
       QuadraticCurveTo cpx cpy px py)
    (List.seq 0 9).

Definition drawWave (P : Platform) (animationTime x y size : Q) : list CanvasOp :=
  (MoveTo (x - size) y ::
   List.map
     (fun i : nat =>
        let px := x - size + (num i / 20) * size * 2 in
        let py := y + Math_sin P (num i * (5 # 10) + animationTime * 3) * size * (5 # 10) in
        LineTo px py)
     (List.seq 0 21) ++
   [LineTo (x + size) (y + size); LineTo (x - size) (y + size)])%list.

(** [drawTentacle] carries the end of the last segment along. *)
Definition tentacleSegment (P : Platform) (animationTime size : Q)
  (state : Q * Q * list CanvasOp) (i : nat) : Q * Q * list CanvasOp :=
  let '(currentX, currentY, ops) := state in
  let segments := 8 in
  let angle := (Math_PI P / 4) * Math_sin P (num i * (5 # 10) + animationTime * 2) in
  let segmentLength := size / segments in
  let currentX := currentX + Math_cos P angle * segmentLength in
  let currentY := currentY + Math_sin P angle * segmentLength in
  let cpX := currentX + Math_cos P (angle + Math_PI P / 2) * (size / segments) * (5 # 10) in
  let cpY := currentY + Math_sin P (angle + Math_PI P / 2) * (size / segments) * (5 # 10) in
  (currentX, currentY, (ops ++ [QuadraticCurveTo cpX cpY currentX currentY])%list).

Definition drawTentacle (P : Platform) (animationTime x y size : Q) : list CanvasOp :=
  snd (List.fold_left (tentacleSegment P animationTime size) (List.seq 0 8) (x, y, [MoveTo x y])).

Fixpoint drawFractal (P : Platform) (x y size : Q) (depth : nat) : list CanvasOp :=
  match depth with
  | O => [Arc x y size 0 (Math_PI P * 2)]
  | S depth' =>
      if JS.lt size 2 then [Arc x y size 0 (Math_PI P * 2)]
      else
        let newSize := size * (6 # 10) in
        let angles := [0; Math_PI P * 2 / 3; Math_PI P * 4 / 3] in
        List.flat_map
          (fun angle =>
             let nx := x + Math_cos P angle * size * (5 # 10) in
             let ny := y + Math_sin P angle * size * (5 # 10) in
             drawFractal P nx ny newSize depth')
          angles
  end.

Definition drawFlow (P : Platform) (animationTime x y size : Q) : list CanvasOp :=
  MoveTo x y ::
  List.map
    (fun i : nat =>
       let t := num i / 50 in
       let angle := t * Math_PI P * 4 + animationTime * 2 in
       let radius := size * (1 - t) in
       let px := x + Math_cos P angle * radius in
       let py := y + Math_sin P angle * radius in
       LineTo px py)
    (List.seq 0 50).

Definition drawGeometricShape (P : Platform) (shapeType : string) (size : Q) : list CanvasOp :=
  (BeginPath ::
   (if String.eqb shapeType "circle" then [Arc 0 0 size 0 (Math_PI P * 2)]
    else if String.eqb shapeType "square" then [Rect (- size) (- size) (size * 2) (size * 2)]
    else if String.eqb shapeType "triangle" then drawPolygon P 3 size
    else if String.eqb shapeType "hexagon" then drawPolygon P 6 size
    else if String.eqb shapeType "star" then drawStar P size
    else if String.eqb shapeType "diamond" then drawPolygon P 4 size
    else []) ++ [Fill])%list.

(** The three scattering brushes; [rnd] is the number of calls of
    [Math.random()] made before the loop. *)
Definition texturedDab (P : Platform) (rnd : nat) (size x y : Q) (i : nat) : list CanvasOp :=
  let offsetX := (Math_random P (rnd + 2 * i) - (5 # 10)) * size in
  let offsetY := (Math_random P (rnd + 2 * i + 1) - (5 # 10)) * size in
  [BeginPath; Arc (x + offsetX) (y + offsetY) (size * (5 # 10)) 0 (Math_PI P * 2); Fill].

Definition splatterDrop (P : Platform) (rnd : nat) (size x y : Q) (i : nat) : list CanvasOp :=
  let angle := Math_random P (rnd + 3 * i) * Math_PI P * 2 in
  let distance := Math_random P (rnd + 3 * i + 1) * size * 2 in
  let dropSize := Math_random P (rnd + 3 * i + 2) * size * (5 # 10) in
  [BeginPath;
   Arc (x + Math_cos P angle * distance) (y + Math_sin P angle * distance) dropSize
     0 (Math_PI P * 2);
   Fill].

Definition sprayDot (P : Platform) (rnd : nat) (size x y : Q) (i : nat) : list CanvasOp :=
  let angle := Math_random P (rnd + 3 * i) * Math_PI P * 2 in
  let distance := Math_random P (rnd + 3 * i + 1) * size in
  let dotSize := Math_random P (rnd + 3 * i + 2) * 2 in
  [BeginPath;
   Arc (x + Math_cos P angle * distance) (y + Math_sin P angle * distance) dotSize
     0 (Math_PI P * 2);
   Fill].

(** The calls made, and the number of calls of [Math.random()]. *)
Definition drawBrushShape (P : Platform) (rnd : nat) (shapeType : string) (size x y : Q)
  : list CanvasOp * nat :=
  let '(ops, n) :=
    if String.eqb shapeType "soft" then
      ([BeginPath; Arc x y (size * (15 # 10)) 0 (Math_PI P * 2); Fill], 0%nat)
    else if String.eqb shapeType "textured" then
      (List.flat_map (texturedDab P rnd size x y) (List.seq 0 10), 20%nat)
    else if String.eqb shapeType "splatter" then
      (List.flat_map (splatterDrop P rnd size x y) (List.seq 0 8), 24%nat)
    else if String.eqb shapeType "calligraphy" then
      ([StrokeStyleFromFill; SetLineWidth (size * (5 # 10)); SetLineCapRound; BeginPath;
        MoveTo (x - size) y; QuadraticCurveTo x (y - size * (5 # 10)) (x + size) y; Stroke],
       0%nat)
    else if String.eqb shapeType "spray" then
      (List.flat_map (sprayDot P rnd size x y) (List.seq 0 30), 90%nat)
    else ([], 0%nat) in
  (ScaleGlobalAlpha (6 # 10) :: ops, n).

Definition drawOrganicShape (P : Platform) (animationTime : Q) (shapeType : string)
  (x y size : Q) : list CanvasOp :=
  (BeginPath ::
   (if String.eqb shapeType "blob" then drawBlob P animationTime x y size
    else if String.eqb shapeType "wave" then drawWave P animationTime x y size
    else if String.eqb shapeType "tentacle" then drawTentacle P animationTime x y size
    else if String.eqb shapeType "fractal" then drawFractal P x y size 3
    else if String.eqb shapeType "flow" then drawFlow P animationTime x y size
    else []) ++ [Fill])%list.

(** [renderShape]: the calls made, the number of calls of [Math.random()],
    and the exception it is left by, if any.  [createRadialGradient]
    throws for a negative [size], before any of the drawing; from a size
    that is not negative the routines derive radii that are not negative
    either, [Math.random()] being in [0, 1). *)
Definition renderShape (P : Platform) (rnd : nat) (animationTime : Q)
  (shape : AnimatedShape) (size opacity : Q) : list CanvasOp * nat * option JS.error :=
  let setup :=
    [Save; SetGlobalAlpha opacity; Translate (x shape) (y shape); Rotate (rotation shape)] in
  if JS.lt size 0 then (setup, 0%nat, Some JS.IndexSizeError)
  else
    let '(ops, n) :=
      match type shape with
      | geometric =>
          (drawGeometricShape P (StorageService.shapeType (mapping shape)) size, 0%nat)
      | brush => drawBrushShape P rnd (StorageService.shapeType (mapping shape)) size 0 0
      | organic =>
          (drawOrganicShape P animationTime (StorageService.shapeType (mapping shape)) 0 0 size,
           0%nat)
      end in
    ((setup ++
      [FillRadialGradient size (StorageService.colorPrimary (mapping shape))
         (StorageService.colorSecondary (mapping shape))] ++ ops ++ [Restore])%list,
     n, None).

(** The radius a call asks for, if it takes one. *)
Definition radiusOf (op : CanvasOp) : option Q :=
  match op with
  | Arc _ _ radius _ _ => Some radius
  | FillRadialGradient radius _ _ => Some radius
  | _ => None
  end.

(** The calls that touch what [renderShape] itself saves and sets up. *)
Definition setsUpContext (op : CanvasOp) : bool :=
  match op with
  | Save | Restore | SetGlobalAlpha _ | Translate _ _ | Rotate _
  | FillRadialGradient _ _ _ => true
  | _ => false
  end.

End Renderer.

(* ===================================================================== *)
(** * src/lib/visualRenderer.ts: the renderer without fade options *)
(* ===================================================================== *)

Module LegacyRenderer.

Import Renderer.

Record RenderOptions : Type := {
  globalOpacity : Q;
  sensitivity : Q
}.

(** The fields of the renderer, the calls made so far, and in [thrown] the
    exception by which the last call was left, if any: the other fields
    are then as they were at that moment. *)
Record State : Type := {
  particles : list Particle;
  animatedShapes : list AnimatedShape;
  animationTime : Q;
  lastFrameTime : Q;
  canvasWidth : Q;
  canvasHeight : Q;
  rndCalls : nat;
  nowCalls : nat;
  canvas : list DrawCall;
  thrown : option JS.error
}.

(** The body of the loop of [updateAnimatedShapes].  [renderShape] asks for
    a radial gradient of radius [currentSize] before it draws: a negative
    size throws. *)
Definition stepShape (P : Platform) (animationTime now : Q) (shape : AnimatedShape)
  : Iteration AnimatedShape :=
  let elapsed := now - startTime shape in
  let progress := JS.min (elapsed / duration shape) 1 in
  if JS.ge progress 1 then Splice
  else
    let easedProgress := easeInOutCubic progress in
    let shape' := moveShape shape (JS.min (easedProgress * scaleSpeed shape) 2) true in
    let opacityMod :=
      Math_sin P (animationTime * 2 + opacityPhase shape) * (2 # 10) + (8 # 10) in
    let currentOpacity := baseOpacity shape * (1 - progress * (3 # 10)) * opacityMod in
    let currentSize := baseSize shape * scale shape' in
    if JS.lt currentSize 0 then Abort shape' JS.IndexSizeError
    else Draw shape' (DrawShape shape' currentSize currentOpacity) (drawRandomCalls shape').

(** The body of the loop of [updateParticles]; the disc is an [arc] of
    radius [p.size * p.scale]. *)
Definition stepParticle (now : Q) (p : Particle) : Iteration Particle :=
  let elapsed := now - pstartTime p in
  let progress := JS.min (elapsed / pduration p) 1 in
  if JS.ge progress 1 then Splice
  else
    let easedProgress := easeOutQuad progress in
    let p' := moveParticle p ((1 # 2) + easedProgress * (maxScale p - (1 # 2)))
                (1 - progress) true in
    let radius := size p' * pscale p' in
    if JS.lt radius 0 then Abort p' JS.IndexSizeError
    else Draw p' (DrawParticle p' (life p') radius) 0%nat.

Definition updateAnimatedShapes (P : Platform) (now : Q) (st : State) : State :=
  let attempt := backwardsUntilThrow (stepShape P (animationTime st) now)
                   (animatedShapes st) (rndCalls st) (canvas st) in
  {| particles := particles st;
     animatedShapes := left attempt;
     animationTime := animationTime st;
     lastFrameTime := lastFrameTime st;
     canvasWidth := canvasWidth st;
     canvasHeight := canvasHeight st;
     rndCalls := randomsRead attempt;
     nowCalls := nowCalls st;
     canvas := painted attempt;
     thrown := raised attempt |}.

Definition updateParticles (now : Q) (st : State) : State :=
  let attempt := backwardsUntilThrow (stepParticle now) (particles st) (rndCalls st) (canvas st) in
  {| particles := left attempt;
     animatedShapes := animatedShapes st;
     animationTime := animationTime st;
     lastFrameTime := lastFrameTime st;
     canvasWidth := canvasWidth st;
     canvasHeight := canvasHeight st;
     rndCalls := randomsRead attempt;
     nowCalls := nowCalls st;
     canvas := painted attempt;
     thrown := raised attempt |}.

(** [updateParticles] runs when [updateAnimatedShapes] has returned. *)
Definition updateAnimatedElements (P : Platform) (now : Q) (st : State) : State :=
  let st := updateAnimatedShapes P now st in
  match thrown st with
  | Some _ => st
  | None => updateParticles now st
  end.

(** Lines 96-100 of [render]. *)
Definition spawnSize (mapping : SoundMapping) (amplitudeScaled : Q) : Q :=
  StorageService.sizeBase mapping * (1 + amplitudeScaled * 3).

Definition spawnOpacity (mapping : SoundMapping) (options : RenderOptions)
  (amplitudeScaled : Q) : Q :=
  JS.min
    (JS.max (StorageService.opacityBase mapping * globalOpacity options *
             ((3 # 10) + amplitudeScaled * (15 # 10))) (2 # 10))
    1.

(** The state after the clock has been read and the spawn routine for the
    mapping's family has run. *)
Definition spawn (P : Platform) (now : Q) (st : State) (mapping : SoundMapping)
  (amplitudeScaled : Q) (options : RenderOptions) : State :=
  let x := Math_random P (rndCalls st) * canvasWidth st in
  let y := Math_random P (rndCalls st + 1) * canvasHeight st in
  let rnd := (rndCalls st + 2)%nat in
  let size := spawnSize mapping amplitudeScaled in
  let opacity := spawnOpacity mapping options amplitudeScaled in
  let shape (type : ShapeType) :=
    {| particles := particles st;
       animatedShapes :=
         (animatedShapes st ++
          [createAnimatedShape P rnd (nowCalls st) (8 # 10) type mapping x y size opacity])%list;
       animationTime := animationTime st;
       lastFrameTime := lastFrameTime st;
       canvasWidth := canvasWidth st;
       canvasHeight := canvasHeight st;
       rndCalls := (rnd + 8)%nat;
       nowCalls := S (nowCalls st);
       canvas := canvas st;
       thrown := thrown st |} in
  match StorageService.visualType mapping with
  | StorageService.geometric => shape geometric
  | StorageService.brush => shape brush
  | StorageService.organic => shape organic
  | StorageService.particle =>
      let created := createAnimatedParticles P rnd mapping x y size opacity amplitudeScaled now in
      {| particles := (particles st ++ created)%list;
         animatedShapes := animatedShapes st;
         animationTime := animationTime st;
         lastFrameTime := lastFrameTime st;
         canvasWidth := canvasWidth st;
         canvasHeight := canvasHeight st;
         rndCalls := (rnd + 7 * List.length created)%nat;
         nowCalls := nowCalls st;
         canvas := canvas st;
         thrown := thrown st |}
  end.

Definition render (P : Platform) (st : State) (mapping : SoundMapping)
  (audioFeatures : AudioProcessor.AudioFeatures) (options : RenderOptions) : State :=
  let now := performance_now P (nowCalls st) in
  let deltaTime := (now - lastFrameTime st) / 1000 in
  let st :=
    {| particles := particles st;
       animatedShapes := animatedShapes st;
       animationTime := animationTime st + deltaTime;
       lastFrameTime := now;
       canvasWidth := canvasWidth st;
       canvasHeight := canvasHeight st;
       rndCalls := rndCalls st;
       nowCalls := S (nowCalls st);
       canvas := canvas st;
       thrown := None |} in
  let amplitudeScaled := AudioProcessor.amplitude audioFeatures * sensitivity options * 2 in
  if JS.lt amplitudeScaled (1 # 100) then updateAnimatedElements P now st
  else updateAnimatedElements P now (spawn P now st mapping amplitudeScaled options).

End LegacyRenderer.

(* ===================================================================== *)
(** * The renderer with the fade options *)
(* ===================================================================== *)

Module VisualRenderer.

Import Renderer.

Record RenderOptions : Type := {
  globalOpacity : Q;
  sensitivity : Q;
  fadeEnabled : bool;
  fadeDuration : Q
}.

Record State : Type := {
  particles : list Particle;
  animatedShapes : list AnimatedShape;
  animationTime : Q;
  lastFrameTime : Q;
  currentOptions : RenderOptions;
  canvasWidth : Q;
  canvasHeight : Q;
  rndCalls : nat;
  nowCalls : nat;
  canvas : list DrawCall
}.

(** The body of the loop of [updateAnimatedShapes] (lines 206-259). *)
Definition stepShape (P : Platform) (currentOptions : RenderOptions)
  (animationTime now : Q) (shape : AnimatedShape)
  : option (AnimatedShape * DrawCall * nat) :=
  let elapsed := now - startTime shape in
  if fadeEnabled currentOptions then
    let fadeStartTime := fadeDuration currentOptions in
    let fadeDuration := 1500 in
    if JS.gt elapsed (fadeStartTime + fadeDuration) then None
    else
      let animProgress := JS.min (elapsed / 1000) 1 in
      let easedProgress := easeInOutCubic animProgress in
      let shape' := moveShape shape ((1 # 2) + easedProgress * scaleSpeed shape) true in
      let currentOpacity :=
        if JS.gt elapsed fadeStartTime then
          let fadeProgress := (elapsed - fadeStartTime) / fadeDuration in
          baseOpacity shape * (1 - fadeProgress)
        else baseOpacity shape in
      let currentSize := baseSize shape * scale shape' in
      Some (shape', DrawShape shape' currentSize currentOpacity, drawRandomCalls shape')
  else
    let progress := JS.min (elapsed / duration shape) 1 in
    if JS.ge progress 1 then
      let easedProgress := 1 in
      let shape' := moveShape shape ((1 # 2) + easedProgress * scaleSpeed shape) false in
      let currentSize := baseSize shape * scale shape' in
      let currentOpacity := baseOpacity shape in
      Some (shape', DrawShape shape' currentSize currentOpacity, drawRandomCalls shape')
    else
      let easedProgress := easeInOutCubic progress in
      let shape' := moveShape shape ((1 # 2) + easedProgress * scaleSpeed shape) true in
      let opacityMod :=
        Math_sin P (animationTime * 2 + opacityPhase shape) * (2 # 10) + (8 # 10) in
      let currentOpacity := baseOpacity shape * (1 - progress * (3 # 10)) * opacityMod in
      let currentSize := baseSize shape * scale shape' in
      Some (shape', DrawShape shape' currentSize currentOpacity, drawRandomCalls shape').

(** The body of the loop of [updateParticles] (lines 403-474). *)
Definition stepParticle (currentOptions : RenderOptions) (now : Q) (p : Particle)
  : option (Particle * DrawCall * nat) :=
  let elapsed := now - pstartTime p in
  if fadeEnabled currentOptions then
    let fadeStartTime := fadeDuration currentOptions in
    let fadeDuration := 1500 in
    if JS.gt elapsed (fadeStartTime + fadeDuration) then None
    else
      let animProgress := JS.min (elapsed / 1000) 1 in
      let easedProgress := easeOutQuad animProgress in
      let p' := moveParticle p ((1 # 2) + easedProgress * (maxScale p - (1 # 2)))
                  (life p) true in
      let currentOpacity :=
        if JS.gt elapsed fadeStartTime then
          let fadeProgress := (elapsed - fadeStartTime) / fadeDuration in
          1 - fadeProgress
        else 1 in
      Some (p', DrawParticle p' currentOpacity (size p' * pscale p'), 0%nat)
  else
    let progress := JS.min (elapsed / pduration p) 1 in
    if JS.ge progress 1 then
      let easedProgress := 1 in
      let p' := moveParticle p ((1 # 2) + easedProgress * (maxScale p - (1 # 2)))
                  (life p) false in
      Some (p', DrawParticle p' 1 (size p' * pscale p'), 0%nat)
    else
      let easedProgress := easeOutQuad progress in
      let p' := moveParticle p ((1 # 2) + easedProgress * (maxScale p - (1 # 2)))
                  (1 - progress) true in
      Some (p', DrawParticle p' (life p') (size p' * pscale p'), 0%nat).

Definition updateAnimatedShapes (P : Platform) (now : Q) (st : State) : State :=
  let pass := backwards (stepShape P (currentOptions st) (animationTime st) now)
                (animatedShapes st) (rndCalls st) (canvas st) in
  {| particles := particles st;
     animatedShapes := kept pass;
     animationTime := animationTime st;
     lastFrameTime := lastFrameTime st;
     currentOptions := currentOptions st;
     canvasWidth := canvasWidth st;
     canvasHeight := canvasHeight st;
     rndCalls := randomCalls pass;
     nowCalls := nowCalls st;
     canvas := drawn pass |}.

Definition updateParticles (now : Q) (st : State) : State :=
  let pass := backwards (stepParticle (currentOptions st) now)
                (particles st) (rndCalls st) (canvas st) in
  {| particles := kept pass;
     animatedShapes := animatedShapes st;
     animationTime := animationTime st;
     lastFrameTime := lastFrameTime st;
     currentOptions := currentOptions st;
     canvasWidth := canvasWidth st;
     canvasHeight := canvasHeight st;
     rndCalls := randomCalls pass;
     nowCalls := nowCalls st;
     canvas := drawn pass |}.

Definition updateAnimatedElements (P : Platform) (now : Q) (st : State) : State :=
  updateParticles now (updateAnimatedShapes P now st).

(** Lines 87-88 of [render]. *)
Definition spawnSize (mapping : SoundMapping) (amplitudeScaled : Q) : Q :=
  JS.max (StorageService.sizeBase mapping * (1 + amplitudeScaled * 3)) 40.

Definition spawnOpacity : Q := 8 # 10.

Definition spawn (P : Platform) (now : Q) (st : State) (mapping : SoundMapping)
  (amplitudeScaled : Q) : State :=
  let x := Math_random P (rndCalls st) * canvasWidth st in
  let y := Math_random P (rndCalls st + 1) * canvasHeight st in
  let rnd := (rndCalls st + 2)%nat in
  let size := spawnSize mapping amplitudeScaled in
  let opacity := spawnOpacity in
  let shape (type : ShapeType) :=
    {| particles := particles st;
       animatedShapes :=
         (animatedShapes st ++
          [createAnimatedShape P rnd (nowCalls st) (12 # 10) type mapping x y size opacity])%list;
       animationTime := animationTime st;
       lastFrameTime := lastFrameTime st;
       currentOptions := currentOptions st;
       canvasWidth := canvasWidth st;
       canvasHeight := canvasHeight st;
       rndCalls := (rnd + 8)%nat;
       nowCalls := S (nowCalls st);
       canvas := canvas st |} in
  match StorageService.visualType mapping with
  | StorageService.geometric => shape geometric
  | StorageService.brush => shape brush
  | StorageService.organic => shape organic
  | StorageService.particle =>
      let created := createAnimatedParticles P rnd mapping x y size opacity amplitudeScaled now in
      {| particles := (particles st ++ created)%list;
         animatedShapes := animatedShapes st;
         animationTime := animationTime st;
         lastFrameTime := lastFrameTime st;
         currentOptions := currentOptions st;
         canvasWidth := canvasWidth st;
         canvasHeight := canvasHeight st;
         rndCalls := (rnd + 7 * List.length created)%nat;
         nowCalls := nowCalls st;
         canvas := canvas st |}
  end.

Definition render (P : Platform) (st : State) (mapping : SoundMapping)
  (audioFeatures : AudioProcessor.AudioFeatures) (options : RenderOptions) : State :=
  let now := performance_now P (nowCalls st) in
  let deltaTime := (now - lastFrameTime st) / 1000 in
  let st :=
    {| particles := particles st;
       animatedShapes := animatedShapes st;
       animationTime := animationTime st + deltaTime;
       lastFrameTime := now;
       currentOptions := options;
       canvasWidth := canvasWidth st;
       canvasHeight := canvasHeight st;
       rndCalls := rndCalls st;
       nowCalls := S (nowCalls st);
       canvas := canvas st |} in
  let amplitudeScaled := AudioProcessor.amplitude audioFeatures * sensitivity options in
  let threshold := 2 # 100 in
  if JS.lt amplitudeScaled threshold then updateAnimatedElements P now st
  else updateAnimatedElements P now (spawn P now st mapping amplitudeScaled).

(** [clear()] *)
Definition clear (st : State) : State :=
  {| particles := [];
     animatedShapes := [];
     animationTime := animationTime st;
     lastFrameTime := lastFrameTime st;
     currentOptions := currentOptions st;
     canvasWidth := canvasWidth st;
     canvasHeight := canvasHeight st;
     rndCalls := rndCalls st;
     nowCalls := nowCalls st;
     canvas := [] |}.

(** The calls of [render] that a run of the animation loop makes, one per
    frame that has features. *)
Record Frame : Type := {
  frameMapping : SoundMapping;
  frameFeatures : AudioProcessor.AudioFeatures;
  frameOptions : RenderOptions
}.

Definition frames (P : Platform) (st : State) (fs : list Frame) : State :=
  List.fold_left
    (fun st frame => render P st (frameMapping frame) (frameFeatures frame) (frameOptions frame))
    fs st.

End VisualRenderer.

(* ===================================================================== *)
(** * Vocabulary of the specification *)
(* ===================================================================== *)

Module Spec.

(** [a] is [x] floored to a multiple of [w]. *)
Definition flooredTo (w : Z) (x : Q) (a : Z) : Prop :=
  (w | a)%Z /\ inject_Z a <= x /\ x < inject_Z (a + w).

(** [x] and [x'] fall in the same bucket of width [w]. *)
Definition sameBucket (w : Z) (x x' : Q) : Prop :=
  exists a : Z, flooredTo w x a /\ flooredTo w x' a.

(** The linear-congruential recurrence of the specification:
    value <- (value * 9301 + 49297) mod 233280. *)
Definition lcg (value : Z) : Z := ((value * 9301 + 49297) mod 233280)%Z.

(** The first [n] states after [value]. *)
Fixpoint lcgStates (n : nat) (value : Z) : list Z :=
  match n with
  | O => []
  | S n' => lcg value :: lcgStates n' (lcg value)
  end.

(** The largest number the generator can return: the state 233279. *)
Definition largestDraw : Q := JS.fdiv 233279 233280.

(** The five labels of [getFrequencyRange]. *)
Definition frequencyLabels : list string :=
  ["sub-bass"; "bass"; "midrange"; "upper-mid"; "treble"].



(** The opacity envelope of the fade mode: the base opacity while the
    elapsed time is at most [fadeStart], then a linear descent that
    reaches 0 after the 1500 ms tail. *)
Definition fadeEnvelope (fadeStart base elapsed : Q) : Q :=
  if Qle_bool elapsed fadeStart then base
  else base * (1 - (elapsed - fadeStart) / 1500).

(** The opacity a draw call sets, and the entity it draws. *)
Definition callOpacity (call : Renderer.DrawCall) : Q :=
  match call with
  | Renderer.DrawShape _ _ opacity => opacity
  | Renderer.DrawParticle _ globalAlpha _ => globalAlpha
  end.

Definition isShapeCall (call : Renderer.DrawCall) : Prop :=
  match call with
  | Renderer.DrawShape _ _ _ => True
  | Renderer.DrawParticle _ _ _ => False
  end.

(** A draw call follows the envelope when its opacity is the envelope's
    value at the entity's own elapsed time (a particle's base is 1). *)
Definition followsEnvelope (fadeStart now : Q) (call : Renderer.DrawCall) : Prop :=
  match call with
  | Renderer.DrawShape shape _ opacity =>
      opacity == fadeEnvelope fadeStart (Renderer.baseOpacity shape)
                   (now - Renderer.startTime shape)
  | Renderer.DrawParticle p globalAlpha _ =>
      globalAlpha == fadeEnvelope fadeStart 1 (now - Renderer.pstartTime p)
  end.

(** What the engine expects of the platform: [Math.random()] returns
    numbers in [0, 1) and [performance.now()] never runs backwards. *)
Definition wellBehaved (P : Renderer.Platform) : Prop :=
  (forall n : nat, 0 <= Renderer.Math_random P n /\ Renderer.Math_random P n < 1) /\
  (forall n : nat, Renderer.performance_now P n <= Renderer.performance_now P (S n)).

(** The renderer's shape type for a non-particle family. *)
Definition shapeTypeOf (visualType : StorageService.VisualType) : option Renderer.ShapeType :=
  match visualType with
  | StorageService.geometric => Some Renderer.geometric
  | StorageService.brush => Some Renderer.brush
  | StorageService.organic => Some Renderer.organic
  | StorageService.particle => None
  end.




(** Elapsed time of a shape and of a particle at the tick that reads [now]. *)
Definition elapsed (now : Q) (shape : Renderer.AnimatedShape) : Q :=
  now - Renderer.startTime shape.
Definition pelapsed (now : Q) (p : Renderer.Particle) : Q :=
  now - Renderer.pstartTime p.

End Spec.

(* ===================================================================== *)
(** * Sample inputs *)
(* ===================================================================== *)

Module Sample.

Definition environment : VisualMapper.Environment :=
  {| VisualMapper.randomUUID := fun n => ("uuid-" ++ JS.intToString (Z.of_nat n))%string;
     VisualMapper.toISOString := fun n => ("2024-01-01T00:00:0" ++ JS.intToString (Z.of_nat n) ++ "Z")%string |}.

(** A world whose store has no entry under the mappings key. *)
Definition world : VisualMapper.World :=
  {| VisualMapper.store :=
       {| StorageService.mappingsItem := None; StorageService.setItemCalls := 0 |};
     VisualMapper.uuidCalls := 0;
     VisualMapper.dateCalls := 0 |}.

(** Features whose signature is "100-40-60-80" (scenario B). *)
Definition features : AudioProcessor.AudioFeatures :=
  {| AudioProcessor.frequency := 123;
     AudioProcessor.amplitude := 1 # 2;
     AudioProcessor.lowFreq := 45;
     AudioProcessor.midFreq := 61;
     AudioProcessor.highFreq := 995 # 10;
     AudioProcessor.signature := "100-40-60-80" |}.

(** A platform to run the engine on: a constant random stream, a clock
    that advances 16 ms per reading, and the Taylor polynomials of degree
    5 and 4 standing in for sine and cosine. *)
Definition platform : Renderer.Platform :=
  {| Renderer.Math_random := fun _ => 1 # 2;
     Renderer.performance_now := fun n => inject_Z (16 * Z.of_nat n);
     Renderer.Math_sin := fun t => t - t * t * t / 6 + t * t * t * t * t / 120;
     Renderer.Math_cos := fun t => 1 - t * t / 2 + t * t * t * t / 24;
     Renderer.Math_PI := 355 # 113 |}.

Definition mapping : StorageService.SoundMapping :=
  {| StorageService.id := "uuid-0";
     StorageService.soundSignature := "100-40-60-80";
     StorageService.frequencyRange := "sub-bass";
     StorageService.visualType := StorageService.geometric;
     StorageService.colorPrimary := "hsl(10, 70%, 50%)";
     StorageService.colorSecondary := "hsl(190, 70%, 50%)";
     StorageService.shapeType := "circle";
     StorageService.sizeBase := 10;
     StorageService.opacityBase := 1 # 2;
     StorageService.animationStyle := "pulse";
     StorageService.createdAt := "2024-01-01T00:00:00Z" |}.

(** A shape and a particle spawned at [start] with a lifetime of 1000 ms. *)
Definition shapeAt (start : Q) : Renderer.AnimatedShape :=
  {| Renderer.type := Renderer.geometric;
     Renderer.mapping := mapping;
     Renderer.x := 100;
     Renderer.y := 100;
     Renderer.baseSize := 40;
     Renderer.baseOpacity := 8 # 10;
     Renderer.startTime := start;
     Renderer.duration := 1000;
     Renderer.rotation := 0;
     Renderer.rotationSpeed := 1 # 2;
     Renderer.scale := 12 # 10;
     Renderer.scaleSpeed := 1;
     Renderer.vx := 30;
     Renderer.vy := 0;
     Renderer.growthRate := 1 # 2;
     Renderer.opacityPhase := 0 |}.

Definition particleAt (start : Q) : Renderer.Particle :=
  {| Renderer.px := 100;
     Renderer.py := 100;
     Renderer.pvx := 60;
     Renderer.pvy := 0;
     Renderer.size := 8;
     Renderer.color := "hsl(10, 70%, 50%)";
     Renderer.life := 1;
     Renderer.decay := 15 # 1000;
     Renderer.pstartTime := start;
     Renderer.pduration := 1000;
     Renderer.protation := 0;
     Renderer.protationSpeed := 1;
     Renderer.pscale := 1 # 2;
     Renderer.maxScale := 2 |}.

Definition legacyOptions : LegacyRenderer.RenderOptions :=
  {| LegacyRenderer.globalOpacity := 7 # 10; LegacyRenderer.sensitivity := 1 |}.

Definition legacyState (shapes : list Renderer.AnimatedShape) (ps : list Renderer.Particle)
  : LegacyRenderer.State :=
  {| LegacyRenderer.particles := ps;
     LegacyRenderer.animatedShapes := shapes;
     LegacyRenderer.animationTime := 0;
     LegacyRenderer.lastFrameTime := 0;
     LegacyRenderer.canvasWidth := 800;
     LegacyRenderer.canvasHeight := 600;
     LegacyRenderer.rndCalls := 0;
     LegacyRenderer.nowCalls := 0;
     LegacyRenderer.canvas := [];
     LegacyRenderer.thrown := None |}.

(** The options of scenario C, with the fade switched on or off. *)
Definition options (fade : bool) : VisualRenderer.RenderOptions :=
  {| VisualRenderer.globalOpacity := 7 # 10;
     VisualRenderer.sensitivity := 1;
     VisualRenderer.fadeEnabled := fade;
     VisualRenderer.fadeDuration := 3000 |}.

Definition state (fade : bool) (shapes : list Renderer.AnimatedShape)
  (ps : list Renderer.Particle) : VisualRenderer.State :=
  {| VisualRenderer.particles := ps;
     VisualRenderer.animatedShapes := shapes;
     VisualRenderer.animationTime := 0;
     VisualRenderer.lastFrameTime := 0;
     VisualRenderer.currentOptions := options fade;
     VisualRenderer.canvasWidth := 800;
     VisualRenderer.canvasHeight := 600;
     VisualRenderer.rndCalls := 0;
     VisualRenderer.nowCalls := 0;
     VisualRenderer.canvas := [] |}.

(** An active processor over two-entry buffers; the analyser holds one
    full-scale and one zero sample. *)
Definition processor : AudioProcessor.Processor :=
  {| AudioProcessor.audioContext := Some 48000;
     AudioProcessor.analyser :=
       Some {| AudioProcessor.byteTimeDomainData := [xff; x00]%byte;
               AudioProcessor.byteFrequencyData := [x10; x20]%byte |};
     AudioProcessor.dataArray := Some [x80; x80]%byte;
     AudioProcessor.frequencyBins := Some [x00; x00]%byte;
     AudioProcessor.isActive := true |}.

(** A platform whose sine and cosine are constant (0 and 1), for the
    properties that need bounded trigonometric values. *)
Definition calmPlatform : Renderer.Platform :=
  {| Renderer.Math_random := fun _ => 1 # 2;
     Renderer.performance_now := fun n => inject_Z (16 * Z.of_nat n);
     Renderer.Math_sin := fun _ => 0;
     Renderer.Math_cos := fun _ => 1;
     Renderer.Math_PI := 355 # 113 |}.

(** An artwork with a given id, and a store that holds a list of artworks. *)
Definition artwork (id : string) : StorageService.Artwork.t :=
  {| StorageService.Artwork.id := id;
     StorageService.Artwork.title := "Artwork 1/1/2024";
     StorageService.Artwork.canvasData := "data:image/png;base64,AAAA";
     StorageService.Artwork.soundMappingsUsed := [];
     StorageService.Artwork.durationSeconds := 12;
     StorageService.Artwork.width := 800;
     StorageService.Artwork.height := 600;
     StorageService.Artwork.createdAt := "2024-01-01T00:00:00Z" |}.

Definition artworkStore (artworks : list StorageService.Artwork.t)
  : StorageService.ArtworkStore :=
  {| StorageService.artworksItem := Some artworks;
     StorageService.artworkSetItemCalls := 0 |}.

End Sample.
(* ===================================================================== *)
(** * Rounding to the nearest double *)
(* ===================================================================== *)

Section Doubles.

Lemma floor_bounds (q : Q) : inject_Z (Qfloor q) <= q /\ q < inject_Z (Qfloor q) + 1.
Proof.
  split; [apply Qfloor_le|].
  pose proof (Qlt_floor q) as H. rewrite inject_Z_plus in H. exact H.
Qed.

Lemma roundHalfEven_cases (q : Q) :
  (JS.roundHalfEven q = Qfloor q /\ q - inject_Z (Qfloor q) <= 1 # 2) \/
  (JS.roundHalfEven q = (Qfloor q + 1)%Z /\ 1 # 2 <= q - inject_Z (Qfloor q)).
Proof.
  unfold JS.roundHalfEven.
  destruct (Qcompare_spec (q - inject_Z (Qfloor q)) (1 # 2)) as [H|H|H].
  - destruct (Z.even (Qfloor q)); [left | right]; split; try reflexivity; rewrite H; apply Qle_refl.
  - left. split; [reflexivity | now apply Qlt_le_weak].
  - right. split; [reflexivity | now apply Qlt_le_weak].
Qed.

Lemma roundHalfEven_mono (x y : Q) : x <= y -> (JS.roundHalfEven x <= JS.roundHalfEven y)%Z.
Proof.
  intros Hxy.
  pose proof (Qfloor_resp_le _ _ Hxy) as Hf.
  destruct (Z.eq_dec (Qfloor x) (Qfloor y)) as [E|N].
  - unfold JS.roundHalfEven. rewrite E.
    assert (Hd : x - inject_Z (Qfloor y) <= y - inject_Z (Qfloor y)) by lra.
    destruct (Qcompare_spec (x - inject_Z (Qfloor y)) (1 # 2)) as [H|H|H];
      destruct (Qcompare_spec (y - inject_Z (Qfloor y)) (1 # 2)) as [H'|H'|H'];
      try destruct (Z.even (Qfloor y)); try lia; exfalso; lra.
  - destruct (roundHalfEven_cases x) as [[-> _]|[-> _]],
             (roundHalfEven_cases y) as [[-> _]|[-> _]]; lia.
Qed.

Lemma roundHalfEven_Z (z : Z) : JS.roundHalfEven (inject_Z z) = z.
Proof.
  unfold JS.roundHalfEven. rewrite Qfloor_Z.
  destruct (Qcompare_spec (inject_Z z - inject_Z z) (1 # 2)) as [H|H|H]; try reflexivity;
    exfalso; lra.
Qed.

Lemma roundHalfEven_nonneg (q : Q) : 0 <= q -> (0 <= JS.roundHalfEven q)%Z.
Proof.
  intros H. change 0%Z with (JS.roundHalfEven (inject_Z 0)) at 1.
  rewrite roundHalfEven_Z. rewrite <- (roundHalfEven_Z 0). now apply roundHalfEven_mono.
Qed.

Lemma pow2_pos (k : Z) : 0 < 2 ^ k.
Proof. apply Qpower_0_lt. reflexivity. Qed.

Lemma pow2_Z (k : Z) : (0 <= k)%Z -> 2 ^ k == inject_Z (2 ^ k).
Proof. intros H. rewrite Zpower_Qpower by assumption. reflexivity. Qed.

Lemma pow2_quotient (a b : Z) : (0 <= a)%Z -> (0 <= b)%Z ->
  2 ^ (a - b) == inject_Z (2 ^ a) / inject_Z (2 ^ b).
Proof.
  intros Ha Hb. rewrite Qpower_minus by discriminate.
  rewrite !pow2_Z by assumption. reflexivity.
Qed.

Lemma frac_lt (A B : Z) (q : Q) :
  (0 < B)%Z -> (A * Zpos (Qden q) < Qnum q * B)%Z -> inject_Z A / inject_Z B < q.
Proof.
  intros HB H. apply Qlt_shift_div_r.
  - change 0 with (inject_Z 0). rewrite <- Zlt_Qlt. exact HB.
  - unfold Qlt, Qmult, inject_Z. cbn [Qnum Qden]. rewrite Pos.mul_1_r. lia.
Qed.

Lemma frac_gt (A B : Z) (q : Q) :
  (0 < B)%Z -> (Qnum q * B < A * Zpos (Qden q))%Z -> q < inject_Z A / inject_Z B.
Proof.
  intros HB H. apply Qlt_shift_div_l.
  - change 0 with (inject_Z 0). rewrite <- Zlt_Qlt. exact HB.
  - unfold Qlt, Qmult, inject_Z. cbn [Qnum Qden]. rewrite Pos.mul_1_r. lia.
Qed.

Lemma ilog2_guess (q : Q) :
  0 < q ->
  let k := (Z.log2 (Qnum q) - Z.log2 (Zpos (Qden q)))%Z in
  2 ^ (k - 1) < q /\ q < 2 ^ (k + 1).
Proof.
  intros Hq k.
  assert (Hn : (0 < Qnum q)%Z).
  { unfold Qlt in Hq. cbn in Hq. lia. }
  pose proof (Z.log2_spec (Qnum q) Hn) as [Ha1 Ha2].
  pose proof (Z.log2_spec (Zpos (Qden q)) ltac:(lia)) as [Hb1 Hb2].
  pose proof (Z.log2_nonneg (Qnum q)) as Ha0.
  pose proof (Z.log2_nonneg (Zpos (Qden q))) as Hb0.
  set (a := Z.log2 (Qnum q)) in *. set (b := Z.log2 (Zpos (Qden q))) in *.
  assert (Hpa : (0 < 2 ^ a)%Z) by (apply Z.pow_pos_nonneg; lia).
  assert (Hpb : (0 < 2 ^ b)%Z) by (apply Z.pow_pos_nonneg; lia).
  split.
  - replace (k - 1)%Z with (a - Z.succ b)%Z by (unfold k; lia).
    rewrite pow2_quotient by lia.
    apply frac_lt; [apply Z.pow_pos_nonneg; lia|]. nia.
  - replace (k + 1)%Z with (Z.succ a - b)%Z by (unfold k; lia).
    rewrite pow2_quotient by lia.
    apply frac_gt; [assumption|]. nia.
Qed.

Lemma ilog2_spec (q : Q) : 0 < q -> 2 ^ JS.ilog2 q <= q /\ q < 2 ^ (JS.ilog2 q + 1).
Proof.
  intros Hq. destruct (ilog2_guess q Hq) as [H1 H2]. unfold JS.ilog2.
  destruct (Qle_bool _ q) eqn:E.
  - apply Qle_bool_iff in E. split; assumption.
  - split; [now apply Qlt_le_weak|].
    replace (Z.log2 (Qnum q) - Z.log2 (Z.pos (Qden q)) - 1 + 1)%Z
      with (Z.log2 (Qnum q) - Z.log2 (Z.pos (Qden q)))%Z by lia.
    apply Qnot_le_lt. intros H. apply Qle_bool_iff in H. congruence.
Qed.

Lemma ilog2_mono (x y : Q) : 0 < x -> x <= y -> (JS.ilog2 x <= JS.ilog2 y)%Z.
Proof.
  intros Hx Hxy.
  destruct (ilog2_spec x Hx) as [H1 _].
  destruct (ilog2_spec y ltac:(lra)) as [_ H2].
  assert (H : 2 ^ JS.ilog2 x < 2 ^ (JS.ilog2 y + 1)) by lra.
  apply Qpower_lt_compat_l_inv in H; [lia | reflexivity].
Qed.

Lemma roundAt_mono (e : Z) (x y : Q) : x <= y -> JS.roundAt e x <= JS.roundAt e y.
Proof.
  intros H. unfold JS.roundAt. pose proof (pow2_pos e) as Hp.
  apply Qmult_le_compat_r; [|lra].
  rewrite <- Zle_Qle. apply roundHalfEven_mono.
  apply Qmult_le_compat_r; [assumption|]. apply Qlt_le_weak, Qinv_lt_0_compat, Hp.
Qed.

(** A multiple of [2 ^ e] is kept. *)
Lemma roundAt_multiple (e : Z) (m : Z) : JS.roundAt e (inject_Z m * 2 ^ e) == inject_Z m * 2 ^ e.
Proof.
  unfold JS.roundAt. pose proof (pow2_pos e) as Hp.
  assert (E : inject_Z m * 2 ^ e / 2 ^ e == inject_Z m) by (field; lra).
  assert (L : JS.roundHalfEven (inject_Z m * 2 ^ e / 2 ^ e) = m).
  { apply Z.le_antisymm.
    - rewrite <- (roundHalfEven_Z m) at 2. apply roundHalfEven_mono. rewrite E. apply Qle_refl.
    - rewrite <- (roundHalfEven_Z m) at 1. apply roundHalfEven_mono. rewrite E. apply Qle_refl. }
  rewrite L. reflexivity.
Qed.

Lemma double_roundAt (q : Q) : ~ q == 0 -> JS.double q == JS.roundAt (JS.ulpExponent q) q.
Proof.
  intros H. unfold JS.double.
  destruct (Qeq_bool q 0) eqn:E; [apply Qeq_bool_iff in E; contradiction|].
  apply Qred_correct.
Qed.

Lemma double_0 (q : Q) : q == 0 -> JS.double q = 0.
Proof. intros H. unfold JS.double. apply Qeq_bool_iff in H. now rewrite H. Qed.

Lemma pow2_split (a b : Z) : (a <= b)%Z -> 2 ^ b == inject_Z (2 ^ (b - a)) * 2 ^ a.
Proof.
  intros H. rewrite <- pow2_Z by lia. rewrite <- Qpower_plus by discriminate.
  replace (b - a + a)%Z with b by lia. reflexivity.
Qed.

Lemma double_mono_pos (x y : Q) : 0 < x -> x <= y -> JS.double x <= JS.double y.
Proof.
  intros Hx Hxy.
  assert (Hy : 0 < y) by lra.
  rewrite (double_roundAt x), (double_roundAt y) by lra.
  pose proof (ilog2_mono x y Hx Hxy) as Hl.
  assert (Ex : Qabs x == x) by (apply Qabs_pos; lra).
  assert (Ey : Qabs y == y) by (apply Qabs_pos; lra).
  destruct (ilog2_spec x Hx) as [_ Hx2].
  destruct (ilog2_spec y Hy) as [Hy1 _].
  (* the exponents, whatever the representation *)
  assert (Lx : JS.ilog2 (Qabs x) = JS.ilog2 x).
  { apply Z.le_antisymm; apply ilog2_mono; rewrite ?Ex; lra. }
  assert (Ly : JS.ilog2 (Qabs y) = JS.ilog2 y).
  { apply Z.le_antisymm; apply ilog2_mono; rewrite ?Ey; lra. }
  unfold JS.ulpExponent. rewrite Lx, Ly.
  set (ex := Z.max (-1074) (JS.ilog2 x - 52)).
  set (ey := Z.max (-1074) (JS.ilog2 y - 52)).
  destruct (Z.eq_dec ex ey) as [E|N].
  - rewrite E. now apply roundAt_mono.
  - assert (Hlt : (ex < ey)%Z) by (unfold ex, ey in *; lia).
    assert (Hey : ey = (JS.ilog2 y - 52)%Z) by (unfold ex, ey in *; lia).
    set (b := 2 ^ (ey + 52)).
    assert (Hxb : x <= b).
    { apply Qlt_le_weak. eapply Qlt_le_trans; [exact Hx2|].
      apply Qpower_le_compat_l; [unfold ex in *; lia | discriminate]. }
    assert (Hby : b <= y).
    { unfold b. rewrite Hey. replace (JS.ilog2 y - 52 + 52)%Z with (JS.ilog2 y) by lia. exact Hy1. }
    assert (Ebx : b == inject_Z (2 ^ (ey + 52 - ex)) * 2 ^ ex) by (apply pow2_split; lia).
    assert (Eby : b == inject_Z (2 ^ 52) * 2 ^ ey).
    { unfold b. rewrite (pow2_split ey (ey + 52)) by lia.
      replace (ey + 52 - ey)%Z with 52%Z by lia. reflexivity. }
    apply Qle_trans with b.
    + apply Qle_trans with (JS.roundAt ex (inject_Z (2 ^ (ey + 52 - ex)) * 2 ^ ex)).
      * apply roundAt_mono. now rewrite <- Ebx.
      * rewrite roundAt_multiple, <- Ebx. apply Qle_refl.
    + apply Qle_trans with (JS.roundAt ey (inject_Z (2 ^ 52) * 2 ^ ey)).
      * rewrite roundAt_multiple, <- Eby. apply Qle_refl.
      * apply roundAt_mono. now rewrite <- Eby.
Qed.

Lemma double_nonneg (x : Q) : 0 <= x -> 0 <= JS.double x.
Proof.
  intros H. destruct (Qeq_dec x 0) as [E|N].
  - rewrite (double_0 x E). apply Qle_refl.
  - rewrite double_roundAt by assumption. unfold JS.roundAt.
    apply Qmult_le_0_compat; [|apply Qlt_le_weak, pow2_pos].
    change 0 with (inject_Z 0). rewrite <- Zle_Qle. apply roundHalfEven_nonneg.
    apply Qle_shift_div_l; [apply pow2_pos | lra].
Qed.

(** Rounding to the nearest double is monotone (on the non-negative
    numbers, which are the numbers of this program). *)
Lemma double_mono (x y : Q) : 0 <= x -> x <= y -> JS.double x <= JS.double y.
Proof.
  intros Hx Hxy. destruct (Qeq_dec x 0) as [E|N].
  - rewrite (double_0 x E). apply double_nonneg. lra.
  - apply double_mono_pos; [|assumption].
    destruct (Qlt_le_dec 0 x); [assumption|]. exfalso. apply N. lra.
Qed.

Lemma double_eq (x y : Q) : 0 <= x -> x == y -> JS.double x == JS.double y.
Proof.
  intros Hx E. apply Qle_antisym; apply double_mono; lra.
Qed.

(** An integer below 2^53 is a double. *)
Lemma double_integer (z : Z) : (0 <= z < 2 ^ 53)%Z -> JS.double (inject_Z z) == inject_Z z.
Proof.
  intros [H0 H1]. destruct (Z.eq_dec z 0%Z) as [->|N]; [reflexivity|].
  assert (Hq : 0 < inject_Z z) by (change 0 with (inject_Z 0); rewrite <- Zlt_Qlt; lia).
  rewrite double_roundAt by lra.
  assert (Ea : Qabs (inject_Z z) == inject_Z z) by (apply Qabs_pos; lra).
  assert (Hl : (JS.ilog2 (Qabs (inject_Z z)) <= 52)%Z).
  { destruct (ilog2_spec (Qabs (inject_Z z)) ltac:(lra)) as [Hs _].
    assert (H : 2 ^ JS.ilog2 (Qabs (inject_Z z)) < 2 ^ 53).
    { eapply Qle_lt_trans; [exact Hs|]. rewrite Ea.
      rewrite (pow2_Z 53) by lia. rewrite <- Zlt_Qlt. exact H1. }
    apply Qpower_lt_compat_l_inv in H; [lia | reflexivity]. }
  set (e := JS.ulpExponent (inject_Z z)).
  assert (He : (e <= 0)%Z) by (unfold e, JS.ulpExponent; lia).
  assert (E : inject_Z z == inject_Z (z * 2 ^ (- e)) * 2 ^ e).
  { rewrite inject_Z_mult, <- pow2_Z by lia. rewrite <- Qmult_assoc, <- Qpower_plus by discriminate.
    replace (- e + e)%Z with 0%Z by lia. change (2 ^ 0) with 1. ring. }
  apply Qle_antisym.
  - apply Qle_trans with (JS.roundAt e (inject_Z (z * 2 ^ (- e)) * 2 ^ e)).
    + apply roundAt_mono. rewrite <- E. apply Qle_refl.
    + rewrite roundAt_multiple, <- E. apply Qle_refl.
  - apply Qle_trans with (JS.roundAt e (inject_Z (z * 2 ^ (- e)) * 2 ^ e)).
    + rewrite roundAt_multiple, <- E. apply Qle_refl.
    + apply roundAt_mono. rewrite <- E. apply Qle_refl.
Qed.

End Doubles.
(* ===================================================================== *)
(** * Properties of the feature extractor *)
(* ===================================================================== *)

Section Buckets.

Import AudioProcessor Spec.

Lemma inject_Z_pos (w : Z) : (0 < w)%Z -> 0 < inject_Z w.
Proof. intros H. unfold Qlt. simpl. lia. Qed.

Lemma Qpos_nonzero (q : Q) : 0 < q -> ~ q == 0.
Proof. intros H E. rewrite E in H. exact (Qlt_irrefl _ H). Qed.

Lemma Qfloor_unique (q : Q) (k : Z) :
  inject_Z k <= q -> q < inject_Z (k + 1) -> Qfloor q = k.
Proof.
  intros Hle Hlt.
  pose proof (Qfloor_le q) as H1.
  pose proof (Qlt_floor q) as H2.
  assert (Hk : (k < Qfloor q + 1)%Z).
  { rewrite Zlt_Qlt. eapply Qle_lt_trans; eauto. }
  assert (Hq : (Qfloor q < k + 1)%Z).
  { rewrite Zlt_Qlt. eapply Qle_lt_trans; eauto. }
  lia.
Qed.

Lemma bucket_floored (w : Z) (x : Q) :
  (0 < w)%Z -> flooredTo w x (JS.floor (x / inject_Z w) * w).
Proof.
  intros Hw. unfold flooredTo, JS.floor.
  assert (Hwq : 0 < inject_Z w) by now apply inject_Z_pos.
  assert (E : x / inject_Z w * inject_Z w == x).
  { field. now apply Qpos_nonzero. }
  pose proof (Qfloor_le (x / inject_Z w)) as H1.
  pose proof (Qlt_floor (x / inject_Z w)) as H2.
  set (k := Qfloor (x / inject_Z w)) in *.
  split; [exists k; reflexivity|]. split.
  - rewrite inject_Z_mult, <- E.
    apply Qmult_le_r; assumption.
  - replace (k * w + w)%Z with ((k + 1) * w)%Z by ring.
    rewrite inject_Z_mult, <- E.
    apply Qmult_lt_r; assumption.
Qed.

Lemma flooredTo_bucket (w : Z) (x : Q) (a : Z) :
  (0 < w)%Z -> flooredTo w x a -> (JS.floor (x / inject_Z w) * w)%Z = a.
Proof.
  intros Hw [[k ->] [Hle Hlt]]. f_equal.
  assert (Hwq : 0 < inject_Z w) by now apply inject_Z_pos.
  apply Qfloor_unique.
  - apply Qle_shift_div_l; [assumption|].
    rewrite <- inject_Z_mult. assumption.
  - apply Qlt_shift_div_r; [assumption|].
    rewrite <- inject_Z_mult.
    replace ((k + 1) * w)%Z with (k * w + w)%Z by ring. assumption.
Qed.

Lemma toString_bucket (w : Z) (x : Q) :
  JS.toString (bucket w (JS.Finite x)) = JS.intToString (JS.floor (x / inject_Z w) * w).
Proof. unfold bucket, JS.toString. now rewrite Qfloor_Z. Qed.

Lemma generateSignature_finite (freq low mid high : Q) :
  generateSignature (JS.Finite freq) (JS.Finite low) (JS.Finite mid) (JS.Finite high) =
  (JS.intToString (JS.floor (freq / 50) * 50) ++ "-" ++
   JS.intToString (JS.floor (low / 20) * 20) ++ "-" ++
   JS.intToString (JS.floor (mid / 20) * 20) ++ "-" ++
   JS.intToString (JS.floor (high / 20) * 20))%string.
Proof. unfold generateSignature. now rewrite !toString_bucket. Qed.

(** C4.  [generateSignature] returns the four components, [freq] floored
    to a multiple of 50 and [low], [mid], [high] floored to multiples of
    20, printed in decimal and joined by "-"; hence features whose
    components fall in the same buckets get the same signature. *)
Theorem generateSignature_floors_to_buckets (freq low mid high : Q) :
  (exists f l m h : Z,
     flooredTo 50 freq f /\ flooredTo 20 low l /\
     flooredTo 20 mid m /\ flooredTo 20 high h /\
     generateSignature (JS.Finite freq) (JS.Finite low) (JS.Finite mid) (JS.Finite high) =
     (JS.intToString f ++ "-" ++ JS.intToString l ++ "-" ++
      JS.intToString m ++ "-" ++ JS.intToString h)%string) /\
  (forall freq' low' mid' high' : Q,
     sameBucket 50 freq freq' -> sameBucket 20 low low' ->
     sameBucket 20 mid mid' -> sameBucket 20 high high' ->
     generateSignature (JS.Finite freq') (JS.Finite low') (JS.Finite mid') (JS.Finite high') =
     generateSignature (JS.Finite freq) (JS.Finite low) (JS.Finite mid) (JS.Finite high)).
Proof.
  split.
  - exists (JS.floor (freq / 50) * 50)%Z, (JS.floor (low / 20) * 20)%Z,
      (JS.floor (mid / 20) * 20)%Z, (JS.floor (high / 20) * 20)%Z.
    repeat split; try apply (bucket_floored 50); try apply (bucket_floored 20); try lia.
    apply generateSignature_finite.
  - intros freq' low' mid' high' [f [Hf Hf']] [l [Hl Hl']] [m [Hm Hm']] [h [Hh Hh']].
    rewrite !generateSignature_finite.
    change 50 with (inject_Z 50). change 20 with (inject_Z 20).
    rewrite (flooredTo_bucket 50 freq f), (flooredTo_bucket 50 freq' f) by (lia || assumption).
    rewrite (flooredTo_bucket 20 low l), (flooredTo_bucket 20 low' l) by (lia || assumption).
    rewrite (flooredTo_bucket 20 mid m), (flooredTo_bucket 20 mid' m) by (lia || assumption).
    rewrite (flooredTo_bucket 20 high h), (flooredTo_bucket 20 high' h) by (lia || assumption).
    reflexivity.
Qed.

Lemma generateSignature_floors_to_buckets_witness :
  generateSignature (JS.Finite 149) (JS.Finite (599 # 10)) (JS.Finite 60) (JS.Finite 99) =
  generateSignature (JS.Finite 100) (JS.Finite 40) (JS.Finite (705 # 10)) (JS.Finite 80).
Proof.
  apply (proj2 (generateSignature_floors_to_buckets 100 40 (705 # 10) 80)).
  - exists 100%Z. split; (split; [exists 2%Z; reflexivity | split; [unfold Qle | unfold Qlt]; simpl; lia]).
  - exists 40%Z. split; (split; [exists 2%Z; reflexivity | split; [unfold Qle | unfold Qlt]; simpl; lia]).
  - exists 60%Z. split; (split; [exists 3%Z; reflexivity | split; [unfold Qle | unfold Qlt]; simpl; lia]).
  - exists 80%Z. split; (split; [exists 4%Z; reflexivity | split; [unfold Qle | unfold Qlt]; simpl; lia]).
Defined.

Example signature_scenario_B :
  generateSignature (JS.Finite 123) (JS.Finite 45) (JS.Finite 61) (JS.Finite (995 # 10)) =
  "100-40-60-80".
Proof. reflexivity. Qed.

End Buckets.
Section Amplitude.

Import AudioProcessor.

Lemma entry_bounds (b : Byte.byte) : 0 <= entry b /\ entry b <= 255.
Proof.
  unfold entry. pose proof (Byte.to_N_bounded b) as H.
  split; unfold Qle; simpl; lia.
Qed.

Lemma normalized_square_bounds (b : Byte.byte) :
  0 <= normalized b * normalized b /\ normalized b * normalized b <= 1.
Proof.
  unfold normalized. destruct (entry_bounds b) as [H0 H255].
  set (e := entry b) in *.
  assert (E : (e - 128) / 128 * ((e - 128) / 128) == (e - 128) * (e - 128) / 16384) by field.
  assert (Hsq : 0 <= (e - 128) * (e - 128)).
  { destruct (Qlt_le_dec e 128) as [Hlt | Hge].
    - assert (F : (e - 128) * (e - 128) == (128 - e) * (128 - e)) by ring.
      rewrite F. apply Qmult_le_0_compat; lra.
    - apply Qmult_le_0_compat; lra. }
  assert (Hprod : 0 <= e * (256 - e)) by (apply Qmult_le_0_compat; lra).
  assert (Hexp : (e - 128) * (e - 128) == 16384 - e * (256 - e)) by ring.
  rewrite E. split.
  - apply Qle_shift_div_l; [reflexivity|]. lra.
  - apply Qle_shift_div_r; [reflexivity|]. lra.
Qed.

(** A summation loop whose terms lie in [0, hi] ends between its initial
    value and that value plus [hi] per entry. *)
Lemma sum_loop_bounds {A : Type} (term : A -> Q) (hi : Q) (l : list A) (acc : Q) :
  (forall a, 0 <= term a /\ term a <= hi) ->
  acc <= List.fold_left (fun sum a => sum + term a) l acc /\
  List.fold_left (fun sum a => sum + term a) l acc <= acc + hi * len l.
Proof.
  intros Hterm. revert acc. unfold len.
  induction l as [|a l IH]; intros acc.
  - simpl. split; [apply Qle_refl|].
    assert (F : hi * inject_Z 0 == 0) by ring. rewrite F. lra.
  - cbn [List.fold_left List.length].
    destruct (IH (acc + term a)) as [IH1 IH2].
    destruct (Hterm a) as [Ha0 Hahi].
    rewrite Nat2Z.inj_succ, <- Z.add_1_r, inject_Z_plus.
    split; [lra|].
    eapply Qle_trans; [exact IH2|].
    change (inject_Z 1) with 1. lra.
Qed.

Lemma div_finite (a b : Q) : ~ b == 0 -> JS.div a b = JS.Finite (a / b).
Proof.
  intros Hb. unfold JS.div.
  destruct (Qeq_bool b 0) eqn:E; [|reflexivity].
  apply Qeq_bool_iff in E. contradiction.
Qed.

Lemma len_pos {A : Type} (l : list A) : l <> [] -> 0 < len l.
Proof.
  intros Hl. destruct l as [|a l]; [contradiction|].
  unfold len. apply inject_Z_pos. cbn [List.length]. lia.
Qed.

Lemma mean_bounds (sum n hi : Q) :
  0 < n -> 0 <= sum -> sum <= 0 + hi * n -> 0 <= sum / n /\ sum / n <= hi.
Proof.
  intros Hn H0 Hhi. split.
  - apply Qle_shift_div_l; [assumption|]. lra.
  - apply Qle_shift_div_r; [assumption|]. lra.
Qed.

Lemma calculateAmplitude_in_unit_interval (data : Uint8Array) :
  data <> [] ->
  exists a : R, calculateAmplitude data = JS.RFinite a /\ (0 <= a <= 1)%R.
Proof.
  intros Hdata.
  pose proof (len_pos data Hdata) as Hlen.
  destruct (sum_loop_bounds (fun b => normalized b * normalized b) 1 data 0
              normalized_square_bounds) as [Hlo Hhi].
  fold (sumSquares data) in Hlo, Hhi.
  destruct (mean_bounds (sumSquares data) (len data) 1 Hlen Hlo Hhi) as [M0 M1].
  unfold calculateAmplitude.
  rewrite div_finite by now apply Qpos_nonzero.
  unfold JS.sqrt.
  apply Qle_bool_iff in M0 as M0b. rewrite M0b.
  eexists. split; [reflexivity|].
  split; [apply sqrt_pos|].
  rewrite <- sqrt_1. apply sqrt_le_1_alt.
  rewrite <- RMicromega.Q2R_1. now apply Qle_Rle.
Qed.

Lemma sumRange_bounds (bins : Uint8Array) (from to : Z) :
  (0 <= from)%Z -> (from < to)%Z -> (to <= Z.of_nat (List.length bins))%Z ->
  exists v : Q,
    JS.div (sumRange bins from to) (inject_Z (to - from)) = JS.Finite v /\
    0 <= v /\ v <= 255.
Proof.
  intros Hfrom Hlt Hto.
  assert (Hn : 0 < inject_Z (to - from)) by (apply inject_Z_pos; lia).
  rewrite div_finite by now apply Qpos_nonzero.
  eexists. split; [reflexivity|].
  unfold sumRange.
  set (range := List.firstn (Z.to_nat (to - from)) (List.skipn (Z.to_nat from) bins)).
  assert (Hcount : len range = inject_Z (to - from)).
  { unfold len, range. rewrite length_take, length_drop. f_equal. lia. }
  destruct (sum_loop_bounds entry 255 range 0 entry_bounds) as [Hlo Hhi].
  rewrite Hcount in Hhi.
  now apply mean_bounds.
Qed.

Lemma getFrequencyBands_configured (bins : Uint8Array) :
  Z.of_nat (List.length bins) = frequencyBinCount ->
  exists l m h : Q,
    getFrequencyBands (Some bins) =
      {| low := JS.Finite l; mid := JS.Finite m; high := JS.Finite h |} /\
    (0 <= l /\ l <= 255) /\ (0 <= m /\ m <= 255) /\ (0 <= h /\ h <= 255).
Proof.
  intros Hlen. unfold getFrequencyBands. rewrite Hlen.
  change (JS.floor (inject_Z frequencyBinCount * (1 # 10))) with 102%Z.
  change (JS.floor (inject_Z frequencyBinCount * (4 # 10))) with 409%Z.
  cbv zeta.
  destruct (sumRange_bounds bins 0 102) as [l [El Hl]]; [lia | lia | rewrite Hlen; vm_compute; discriminate |].
  destruct (sumRange_bounds bins 102 409) as [m [Em Hm]]; [lia | lia | rewrite Hlen; vm_compute; discriminate |].
  destruct (sumRange_bounds bins 409 frequencyBinCount) as [h [Eh Hh]];
    [lia | reflexivity | rewrite Hlen; lia |].
  exists l, m, h.
  change (inject_Z 102) with (inject_Z (102 - 0)).
  rewrite El, Em, Eh. auto.
Qed.

(** C7.  On every byte buffer that has an entry, so on the buffer of
    fftSize / 2 = 1024 entries that [getAudioFeatures] passes,
    [calculateAmplitude] returns a number in [0, 1]; on every frequency
    buffer of the configured length (1024 bins) each of the three band
    averages of [getFrequencyBands] is a number in [0, 255]. *)
Theorem amplitude_and_bands_in_range :
  (forall data : Uint8Array, data <> [] ->
     exists a : R, calculateAmplitude data = JS.RFinite a /\ (0 <= a <= 1)%R) /\
  (forall bins : Uint8Array, Z.of_nat (List.length bins) = frequencyBinCount ->
     exists l m h : Q,
       getFrequencyBands (Some bins) =
         {| low := JS.Finite l; mid := JS.Finite m; high := JS.Finite h |} /\
       (0 <= l /\ l <= 255) /\ (0 <= m /\ m <= 255) /\ (0 <= h /\ h <= 255)).
Proof.
  split.
  - exact calculateAmplitude_in_unit_interval.
  - exact getFrequencyBands_configured.
Qed.

Lemma amplitude_and_bands_in_range_witness :
  (exists a : R, calculateAmplitude [x00; xff] = JS.RFinite a /\ (0 <= a <= 1)%R) /\
  (exists l m h : Q,
     getFrequencyBands (Some (List.repeat xff 1024)) =
       {| low := JS.Finite l; mid := JS.Finite m; high := JS.Finite h |} /\
     (0 <= l /\ l <= 255) /\ (0 <= m /\ m <= 255) /\ (0 <= h /\ h <= 255)).
Proof.
  split.
  - apply (proj1 amplitude_and_bands_in_range). discriminate.
  - apply (proj2 amplitude_and_bands_in_range). reflexivity.
Defined.

(** A buffer without entries, which the processor never allocates, leaves
    [sum = 0] in the loop, and [Math.sqrt(0 / 0)] is NaN. *)
Lemma calculateAmplitude_empty_buffer_is_NaN :
  calculateAmplitude [] = JS.RNaN.
Proof. reflexivity. Qed.

End Amplitude.
(* ===================================================================== *)
(** * Properties of the mapping generator *)
(* ===================================================================== *)

Section Generator.

Import AudioProcessor VisualMapper Spec.

Lemma toInt32_range (z : Z) : (- 2 ^ 31 <= JS.toInt32 z < 2 ^ 31)%Z.
Proof.
  unfold JS.toInt32.
  pose proof (Z.mod_pos_bound (z + 2 ^ 31) (2 ^ 32) ltac:(lia)). lia.
Qed.

Lemma hashStep_range (hash char : Z) : (- 2 ^ 31 <= hashStep hash char < 2 ^ 31)%Z.
Proof. unfold hashStep, JS.band. apply toInt32_range. Qed.

(** A loop keeps what every iteration keeps. *)
Lemma loop_invariant {A B : Type} (body : A -> B -> A) (Inv : A -> Prop)
  (l : list B) (a : A) :
  Inv a -> (forall a b, Inv a -> Inv (body a b)) -> Inv (List.fold_left body l a).
Proof.
  intros Ha Hbody. revert a Ha.
  induction l as [|b l IH]; intros a Ha; cbn [List.fold_left]; auto.
Qed.

Lemma hash_loop_range (codes : list Z) (hash : Z) :
  (- 2 ^ 31 <= hash < 2 ^ 31)%Z ->
  (- 2 ^ 31 <= List.fold_left hashStep codes hash < 2 ^ 31)%Z.
Proof.
  intros Hh.
  apply (loop_invariant hashStep (fun h => (- 2 ^ 31 <= h < 2 ^ 31)%Z) codes hash Hh).
  intros a b _. apply hashStep_range.
Qed.

Lemma hashSignature_range (signature : string) :
  (0 <= hashSignature signature <= 2 ^ 31)%Z.
Proof.
  unfold hashSignature, JS.abs.
  pose proof (hash_loop_range (JS.charCodes signature) 0 ltac:(lia)). lia.
Qed.

(** While the state update stays below 2^53 it is exact, and on a
    non-negative state the remainder [%] is the modulus. *)
Lemma rng_lcg (value : Z) :
  (0 <= value)%Z -> (value * 9301 + 49297 < 2 ^ 53)%Z ->
  rng value = (JS.fdiv (inject_Z (lcg value)) 233280, lcg value).
Proof.
  intros Hv Hb. unfold rng, lcg, JS.rem, JS.floor, JS.fadd, JS.fmul.
  assert (E1 : JS.double (inject_Z value * 9301) == inject_Z (value * 9301)).
  { rewrite <- (double_integer (value * 9301)) by lia.
    apply double_eq.
    - apply Qmult_le_0_compat; [|discriminate].
      change 0 with (inject_Z 0). rewrite <- Zle_Qle. exact Hv.
    - rewrite inject_Z_mult. reflexivity. }
  assert (E2 : JS.double (JS.double (inject_Z value * 9301) + 49297) ==
               inject_Z (value * 9301 + 49297)).
  { rewrite <- (double_integer (value * 9301 + 49297)) by lia.
    apply double_eq.
    - rewrite E1. change 0 with (inject_Z 0 + inject_Z 0).
      apply Qplus_le_compat; [rewrite <- Zle_Qle; lia | discriminate].
    - rewrite E1, inject_Z_plus. reflexivity. }
  rewrite E2, Qfloor_Z.
  rewrite Z.rem_mod_nonneg by lia. reflexivity.
Qed.

Lemma lcg_range (value : Z) : (0 <= lcg value < 233280)%Z.
Proof. unfold lcg. apply Z.mod_pos_bound. lia. Qed.


(** Every number returned lies between 0 and the largest draw. *)
Lemma unit_fraction (v : Z) :
  (0 <= v < 233280)%Z ->
  0 <= JS.fdiv (inject_Z v) 233280 /\ JS.fdiv (inject_Z v) 233280 <= largestDraw.
Proof.
  intros [H0 H1].
  assert (Hq : 0 <= inject_Z v / 233280).
  { apply Qle_shift_div_l; [reflexivity|]. unfold Qle. simpl. lia. }
  unfold largestDraw, JS.fdiv. split.
  - now apply double_nonneg.
  - apply double_mono; [assumption|].
    apply Qle_shift_div_l; [reflexivity|].
    unfold Qle. cbn. lia.
Qed.

Lemma rng_unit (value : Z) :
  (0 <= value)%Z -> (value * 9301 + 49297 < 2 ^ 53)%Z ->
  0 <= fst (rng value) /\ fst (rng value) <= largestDraw /\
  (0 <= snd (rng value) < 233280)%Z.
Proof.
  intros Hv Hb. rewrite rng_lcg by assumption. cbn [fst snd].
  pose proof (lcg_range value) as Hr.
  destruct (unit_fraction _ Hr). auto.
Qed.

(** A state below the modulus is updated exactly. *)
Lemma state_exact (value : Z) :
  (0 <= value < 233280)%Z -> (value * 9301 + 49297 < 2 ^ 53)%Z.
Proof. lia. Qed.

Lemma hash_exact (value : Z) :
  (0 <= value <= 2 ^ 31)%Z -> (value * 9301 + 49297 < 2 ^ 53)%Z.
Proof. lia. Qed.





Ltac destruct_draws :=
  repeat match goal with
         | |- context [let '(_, _) := ?e in _] => destruct e
         end.



Lemma createMapping_frequencyRange (env : Environment) (w : World) (f : AudioFeatures) :
  StorageService.frequencyRange (fst (createMapping env w f)) =
  getFrequencyRange (frequency f).
Proof. unfold createMapping. destruct_draws. reflexivity. Qed.

Lemma createMapping_soundSignature (env : Environment) (w : World) (f : AudioFeatures) :
  StorageService.soundSignature (fst (createMapping env w f)) = signature f.
Proof. unfold createMapping. destruct_draws. reflexivity. Qed.

Lemma createMapping_world (env : Environment) (w : World) (f : AudioFeatures) :
  snd (createMapping env w f) =
  {| store := store w; uuidCalls := S (uuidCalls w); dateCalls := S (dateCalls w) |}.
Proof. unfold createMapping. destruct_draws. reflexivity. Qed.



(** The literal output for the signature "0-0-0-0". *)
Example hash_0_0_0_0 : hashSignature "0-0-0-0" = 984532697%Z.
Proof. reflexivity. Qed.

Example states_0_0_0_0 :
  lcgStates 9 (hashSignature "0-0-0-0") =
  [69534; 132871; 198308; 200325; 64762; 71699; 207456; 138673; 41750]%Z.
Proof. reflexivity. Qed.

Example mapping_0_0_0_0 (env : Environment) (w : World) (frequency amplitude : Q) :
  let m := fst (createMapping env w
             {| AudioProcessor.frequency := frequency; AudioProcessor.amplitude := amplitude;
                lowFreq := 0; midFreq := 0; highFreq := 0; signature := "0-0-0-0" |}) in
  StorageService.visualType m = StorageService.particle /\
  StorageService.shapeType m = "burst" /\
  StorageService.animationStyle m = "drift" /\
  StorageService.colorPrimary m = "hsl(309, 71%, 51%)" /\
  StorageService.colorSecondary m = "hsl(152, 71%, 51%)".
Proof. cbv zeta. repeat split; vm_compute; reflexivity. Qed.

(** The products are floored after rounding.  For the state 8424 the exact
    value of 8424 / 233280 * 360 is 13; the product of the doubles lies
    just below it, and the hue drawn is 12. *)
Example hue_of_state_8424 :
  JS.floor (JS.fmul (JS.fdiv 8424 233280) 360) = 12%Z /\
  JS.floor ((8424 / 233280) * 360) = 13%Z.
Proof. split; vm_compute; reflexivity. Qed.

(** ** Array indices stay within bounds *)

(** An index drawn for a table of [n] entries: the product is rounded, and
    stays below [n] because the largest draw does. *)
Lemma index_in_range (r : Q) (n : Z) :
  0 <= r -> r <= largestDraw -> (0 < n)%Z ->
  JS.fmul largestDraw (inject_Z n) < inject_Z n ->
  (0 <= JS.floor (JS.fmul r (inject_Z n)) < n)%Z.
Proof.
  intros H0 H1 Hn Hmax. unfold JS.floor, JS.fmul in *.
  assert (Hq : 0 < inject_Z n).
  { change 0 with (inject_Z 0). rewrite <- Zlt_Qlt. exact Hn. }
  assert (Hp : 0 <= r * inject_Z n) by (apply Qmult_le_0_compat; lra).
  split.
  - change 0%Z with (Qfloor 0). apply Qfloor_resp_le. now apply double_nonneg.
  - rewrite Zlt_Qlt. eapply Qle_lt_trans; [apply Qfloor_le|].
    eapply Qle_lt_trans; [|exact Hmax].
    apply double_mono; [assumption|].
    apply Qmult_le_compat_r; lra.
Qed.

Lemma at_index_In {A : Type} (arr : list A) (i : Z) (undefined : A) :
  (0 <= i < Z.of_nat (List.length arr))%Z -> List.In (at_index arr i undefined) arr.
Proof.
  intros Hi. unfold at_index.
  destruct (i <? 0)%Z eqn:E; [lia|].
  apply List.nth_In. lia.
Qed.

Lemma SHAPE_TYPES_nonempty (v : VisualType) : (0 < Z.of_nat (List.length (SHAPE_TYPES v)))%Z.
Proof. destruct v; cbn; lia. Qed.

Lemma createMapping_in_tables (env : Environment) (w : World) (f : AudioFeatures) :
  let m := fst (createMapping env w f) in
  List.In (StorageService.visualType m) VISUAL_TYPES /\
  List.In (StorageService.shapeType m) (SHAPE_TYPES (StorageService.visualType m)) /\
  List.In (StorageService.animationStyle m) ANIMATION_STYLES.
Proof.
  cbv zeta. unfold createMapping, createSeededRandom.
  pose proof (hashSignature_range (signature f)) as Hseed.
  destruct (rng_unit _ (proj1 Hseed) (hash_exact _ Hseed)) as [A1 [B1 C1]].
  destruct (rng (hashSignature (signature f))) as [r1 v1]. cbn [fst snd] in *.
  destruct (rng_unit _ (proj1 C1) (state_exact _ C1)) as [A2 [B2 C2]].
  destruct (rng v1) as [r2 v2]. cbn [fst snd] in *.
  destruct (rng_unit _ (proj1 C2) (state_exact _ C2)) as [A3 [B3 C3]].
  destruct (rng v2) as [r3 v3]. cbn [fst snd] in *.
  destruct_draws. cbn [fst StorageService.visualType StorageService.shapeType
                         StorageService.animationStyle].
  repeat split; apply at_index_In; apply index_in_range;
    auto using SHAPE_TYPES_nonempty; try (cbn; lia).
  - vm_compute. reflexivity.
  - match goal with |- context [SHAPE_TYPES ?v] => destruct v end; vm_compute; reflexivity.
  - vm_compute. reflexivity.
Qed.

(** ** getFrequencyRange *)

Lemma lt_true (a b : Q) : JS.lt a b = true <-> a < b.
Proof.
  unfold JS.lt. rewrite negb_true_iff. split.
  - intros H. apply Qnot_le_lt. intros Hle. apply Qle_bool_iff in Hle. congruence.
  - intros H. destruct (Qle_bool b a) eqn:E; [|reflexivity].
    apply Qle_bool_iff in E. exfalso. exact (Qlt_not_le _ _ H E).
Qed.

Lemma lt_false (a b : Q) : JS.lt a b = false <-> b <= a.
Proof.
  unfold JS.lt. rewrite negb_false_iff. apply Qle_bool_iff.
Qed.

(** C10.  [getFrequencyRange] returns a label for every frequency:
    "sub-bass" exactly below 250, "bass" exactly on [250, 500),
    "midrange" on [500, 2000), "upper-mid" on [2000, 6000) and "treble"
    from 6000 on; so the [frequencyRange] of every mapping that
    [createMapping] produces is one of the five labels. *)
Theorem getFrequencyRange_five_labels :
  (forall freq : Q,
     (getFrequencyRange freq = "sub-bass" <-> freq < 250) /\
     (getFrequencyRange freq = "bass" <-> 250 <= freq /\ freq < 500) /\
     (getFrequencyRange freq = "midrange" <-> 500 <= freq /\ freq < 2000) /\
     (getFrequencyRange freq = "upper-mid" <-> 2000 <= freq /\ freq < 6000) /\
     (getFrequencyRange freq = "treble" <-> 6000 <= freq)) /\
  (forall (env : Environment) (w : World) (f : AudioFeatures),
     List.In (StorageService.frequencyRange (fst (createMapping env w f))) frequencyLabels).
Proof.
  assert (Hcases : forall freq : Q,
    (freq < 250 /\ getFrequencyRange freq = "sub-bass") \/
    (250 <= freq /\ freq < 500 /\ getFrequencyRange freq = "bass") \/
    (500 <= freq /\ freq < 2000 /\ getFrequencyRange freq = "midrange") \/
    (2000 <= freq /\ freq < 6000 /\ getFrequencyRange freq = "upper-mid") \/
    (6000 <= freq /\ getFrequencyRange freq = "treble")).
  { intros freq. unfold getFrequencyRange.
    destruct (JS.lt freq 250) eqn:E1; [apply lt_true in E1; auto | apply lt_false in E1].
    destruct (JS.lt freq 500) eqn:E2; [apply lt_true in E2; auto | apply lt_false in E2].
    destruct (JS.lt freq 2000) eqn:E3; [apply lt_true in E3; auto 6 | apply lt_false in E3].
    destruct (JS.lt freq 6000) eqn:E4; [apply lt_true in E4; auto 8 | apply lt_false in E4].
    auto 10. }
  split.
  - intros freq.
    destruct (Hcases freq) as [[H1 E] | [[H1 [H2 E]] | [[H1 [H2 E]] | [[H1 [H2 E]] | [H1 E]]]]];
      rewrite E; repeat split; intros; try discriminate; try lra;
      repeat match goal with H : _ /\ _ |- _ => destruct H end; try lra.
  - intros env w f. rewrite createMapping_frequencyRange.
    unfold frequencyLabels.
    destruct (Hcases (frequency f)) as [[H1 E] | [[H1 [H2 E]] | [[H1 [H2 E]] | [[H1 [H2 E]] | [H1 E]]]]];
      rewrite E; cbn; auto 10.
Qed.

End Generator.
(* ===================================================================== *)
(** * The CMYK round trip *)
(* ===================================================================== *)

Section CMYKRoundTrip.

Import ExportUtils.

(** C9.  A pure red pixel (255, 0, 0) converts to k = 0, c = 0, m = 1,
    y = 1, and the reconstruction writes back exactly (255, 0, 0): the
    loop leaves such a pixel, alpha included, as it was. *)
Theorem cmyk_pure_red_round_trip :
  k (toCMYK (inject_Z 255 / 255) (inject_Z 0 / 255) (inject_Z 0 / 255)) == 0 /\
  c (toCMYK (inject_Z 255 / 255) (inject_Z 0 / 255) (inject_Z 0 / 255)) == 0 /\
  m (toCMYK (inject_Z 255 / 255) (inject_Z 0 / 255) (inject_Z 0 / 255)) == 1 /\
  y (toCMYK (inject_Z 255 / 255) (inject_Z 0 / 255) (inject_Z 0 / 255)) == 1 /\
  fromCMYK (toCMYK (inject_Z 255 / 255) (inject_Z 0 / 255) (inject_Z 0 / 255)) =
    (255, 0, 0)%Z /\
  convertPixel 255 0 0 = (255, 0, 0)%Z /\
  (forall (alpha : Z) (rest : list Z),
     convertData (255 :: 0 :: 0 :: alpha :: rest)%Z =
     (255 :: 0 :: 0 :: alpha :: convertData rest)%Z).
Proof.
  split; [reflexivity|]. split; [reflexivity|]. split; [reflexivity|].
  split; [reflexivity|]. split; [reflexivity|]. split; [reflexivity|].
  intros alpha rest. reflexivity.
Qed.

(** The written channels always fit a byte. *)
Lemma clamp8_range (z : Z) : (0 <= clamp8 z <= 255)%Z.
Proof. unfold clamp8. lia. Qed.

End CMYKRoundTrip.
(* ===================================================================== *)
(** * The mapping cache and the store *)
(* ===================================================================== *)

Section Cache.

Import AudioProcessor VisualMapper.

Lemma findIndexFrom_range {A : Type} (p : A -> bool) (l : list A) (i : Z) :
  StorageService.findIndexFrom p l i = (-1)%Z \/
  (i <= StorageService.findIndexFrom p l i < i + Z.of_nat (List.length l))%Z.
Proof.
  revert i. induction l as [|a l IH]; intros i; cbn [StorageService.findIndexFrom List.length].
  - now left.
  - destruct (p a); [right; lia|].
    destruct (IH (i + 1)%Z) as [H | H]; [now left | right; lia].
Qed.

Lemma saveSoundMapping_stored (st : StorageService.Store) (mapping : SoundMapping) :
  List.In mapping (StorageService.storedMappings (StorageService.saveSoundMapping st mapping)).
Proof.
  unfold StorageService.saveSoundMapping, StorageService.storedMappings at 1.
  cbn [StorageService.mappingsItem].
  set (l := StorageService.storedMappings st).
  set (p := fun m => String.eqb (StorageService.soundSignature m)
                       (StorageService.soundSignature mapping)).
  unfold StorageService.findIndex.
  destruct (findIndexFrom_range p l 0) as [H | H].
  - rewrite H. cbn. apply List.in_or_app. right. now left.
  - destruct (0 <=? StorageService.findIndexFrom p l 0)%Z eqn:E; [|lia].
    apply list_elem_of_In, list_elem_of_lookup.
    exists (Z.to_nat (StorageService.findIndexFrom p l 0)).
    apply list_lookup_insert_eq. lia.
Qed.

Lemma saveSoundMapping_counts (st : StorageService.Store) (mapping : SoundMapping) :
  StorageService.setItemCalls (StorageService.saveSoundMapping st mapping) =
  S (StorageService.setItemCalls st).
Proof. reflexivity. Qed.

(** A cached signature is answered from the cache: nothing else changes. *)
Lemma getOrCreateMapping_hit (env : Environment) (mp : Mapper) (f : AudioFeatures)
  (cached : SoundMapping) :
  mappingCache mp !! signature f = Some cached ->
  getOrCreateMapping env mp f = (cached, mp).
Proof. intros H. unfold getOrCreateMapping. now rewrite H. Qed.

(** A signature seen for the first time: one mapping is created, cached
    and saved. *)
Lemma getOrCreateMapping_miss (env : Environment) (mp : Mapper) (f : AudioFeatures) :
  mappingCache mp !! signature f = None ->
  let created := fst (createMapping env (world mp) f) in
  getOrCreateMapping env mp f =
  (created,
   {| mappingCache := <[signature f := created]> (mappingCache mp);
      world := {| store := StorageService.saveSoundMapping (store (world mp)) created;
                  uuidCalls := S (uuidCalls (world mp));
                  dateCalls := S (dateCalls (world mp)) |} |}).
Proof.
  intros H. cbv zeta. unfold getOrCreateMapping. rewrite H.
  pose proof (createMapping_world env (world mp) f) as Hw.
  destruct (createMapping env (world mp) f) as [created w]. cbn [fst snd] in *.
  subst w. reflexivity.
Qed.

(** Whatever the state before, a second call with the same signature
    returns the first call's mapping and leaves cache, store and
    environment untouched. *)
Lemma getOrCreateMapping_second_call (env : Environment) (mp : Mapper) (f f' : AudioFeatures) :
  signature f' = signature f ->
  getOrCreateMapping env (snd (getOrCreateMapping env mp f)) f' =
  getOrCreateMapping env mp f.
Proof.
  intros Hsig.
  destruct (mappingCache mp !! signature f) as [cached|] eqn:E.
  - rewrite (getOrCreateMapping_hit env mp f cached E). cbn [snd].
    apply getOrCreateMapping_hit. now rewrite Hsig.
  - rewrite (getOrCreateMapping_miss env mp f E). cbn [snd].
    apply getOrCreateMapping_hit. cbn [mappingCache].
    rewrite Hsig. apply lookup_insert_eq.
Qed.

(** C1.  When a signature is seen for the first time, the first call of
    [getOrCreateMapping] creates one mapping, caches it and saves it; a
    second call with the same signature returns that very mapping, creates
    nothing, and across the two calls [saveSoundMapping] has written to
    the store exactly once. *)
Theorem getOrCreateMapping_twice (env : Environment) (mp : Mapper) (f f' : AudioFeatures) :
  signature f' = signature f ->
  mappingCache mp !! signature f = None ->
  let first := getOrCreateMapping env mp f in
  let second := getOrCreateMapping env (snd first) f' in
  fst second = fst first /\
  snd second = snd first /\
  mappingCache (snd first) !! signature f = Some (fst first) /\
  List.In (fst first) (StorageService.storedMappings (store (world (snd second)))) /\
  StorageService.setItemCalls (store (world (snd second))) =
    S (StorageService.setItemCalls (store (world mp))) /\
  uuidCalls (world (snd second)) = S (uuidCalls (world mp)).
Proof.
  intros Hsig Hmiss. cbv zeta.
  rewrite (getOrCreateMapping_second_call env mp f f' Hsig).
  rewrite (getOrCreateMapping_miss env mp f Hmiss).
  generalize (fst (createMapping env (world mp) f)). intros created.
  cbn [fst snd].
  repeat split;
    [cbn [mappingCache]; apply lookup_insert_eq
    |cbn [world store]; apply saveSoundMapping_stored].
Qed.

Lemma getOrCreateMapping_twice_witness :
  fst (getOrCreateMapping Sample.environment
         (snd (getOrCreateMapping Sample.environment (new Sample.world) Sample.features))
         Sample.features) =
  fst (getOrCreateMapping Sample.environment (new Sample.world) Sample.features) /\
  StorageService.setItemCalls
    (store (world (snd (getOrCreateMapping Sample.environment
         (snd (getOrCreateMapping Sample.environment (new Sample.world) Sample.features))
         Sample.features)))) = 1%nat.
Proof.
  pose proof (getOrCreateMapping_twice Sample.environment (new Sample.world)
                Sample.features Sample.features eq_refl eq_refl) as H.
  cbv zeta in H. destruct H as [H1 [_ [_ [_ [H5 _]]]]].
  split; [exact H1 | exact H5].
Defined.

(** ** Reading the store *)

(** C8 (as amended).  [getAllSoundMappings] returns the empty collection
    when the key is absent or holds the empty string; on any other text
    it returns what [JSON.parse] returns and throws what [JSON.parse]
    throws (nothing catches the SyntaxError of a malformed text); and
    whenever it throws, the start-up load of the mapper throws too. *)
Theorem getAllSoundMappings_outcomes :
  StorageService.getAllSoundMappings None = JS.Return (JSON.JArray []) /\
  StorageService.getAllSoundMappings (Some ""%string) = JS.Return (JSON.JArray []) /\
  (forall text : string, text <> ""%string ->
     StorageService.getAllSoundMappings (Some text) = JSON.parse text) /\
  (forall (data : option string) (e : JS.error),
     StorageService.getAllSoundMappings data = JS.Throw e ->
     startupLoad data = JS.Throw e).
Proof.
  split; [reflexivity|]. split; [reflexivity|]. split.
  - intros text Hne. unfold StorageService.getAllSoundMappings.
    destruct (String.eqb text "") eqn:E; [|reflexivity].
    apply String.eqb_eq in E. contradiction.
  - intros data e H. unfold startupLoad. now rewrite H.
Qed.

Lemma getAllSoundMappings_outcomes_witness :
  StorageService.getAllSoundMappings (Some "[]"%string) = JSON.parse "[]" /\
  startupLoad (Some "{oops"%string) = JS.Throw JS.SyntaxError.
Proof.
  destruct getAllSoundMappings_outcomes as [_ [_ [Hparse Hthrow]]].
  split.
  - apply Hparse. discriminate.
  - apply Hthrow. reflexivity.
Defined.

(** C8, the claim as stated fails on a text that is not JSON: the
    SyntaxError of [JSON.parse] leaves [getAllSoundMappings], and the
    mapper's start-up load with it.  The parser rejects the text at its
    first character, whatever fuel it is given. *)
Lemma getAllSoundMappings_throws_on_malformed_text :
  StorageService.getAllSoundMappings (Some "not json"%string) = JS.Throw JS.SyntaxError /\
  startupLoad (Some "not json"%string) = JS.Throw JS.SyntaxError /\
  (forall fuel : nat,
     JSON.parseValue (S fuel) (list_ascii_of_string "not json") = JSON.PError).
Proof. repeat split. Qed.

End Cache.
(* ===================================================================== *)
(** * The JSON parser never runs out of fuel *)
(* ===================================================================== *)

Section ParserFuel.

Import JSON.

Ltac break_match :=
  match goal with
  | H : context [match ?x with _ => _ end] |- _ => destruct x eqn:?
  | |- context [match ?x with _ => _ end] => destruct x eqn:?
  end.

Lemma skipWs_length (cs : list ascii) : (List.length (skipWs cs) <= List.length cs)%nat.
Proof.
  induction cs as [|c cs IH]; cbn [skipWs List.length]; [lia|].
  destruct (isWs c); cbn [List.length]; lia.
Qed.

Lemma spanDigits_length (cs ds rest : list ascii) :
  spanDigits cs = (ds, rest) ->
  (List.length ds + List.length rest = List.length cs)%nat.
Proof.
  revert ds rest. induction cs as [|c cs IH]; intros ds rest H; cbn [spanDigits] in H.
  - injection H as <- <-. reflexivity.
  - destruct (isDigit c).
    + destruct (spanDigits cs) as [ds' rest'] eqn:E. injection H as <- <-.
      specialize (IH ds' rest' eq_refl). cbn [List.length]. lia.
    + injection H as <- <-. reflexivity.
Qed.

Lemma digits1_length (cs ds rest : list ascii) :
  digits1 cs = Some (ds, rest) -> (List.length rest < List.length cs)%nat.
Proof.
  unfold digits1. intros H.
  destruct (spanDigits cs) as [ds' rest'] eqn:E.
  apply spanDigits_length in E.
  destruct ds' as [|d ds']; [discriminate|]. injection H as <- <-.
  cbn [List.length] in E. lia.
Qed.

Lemma parseInt_length (cs ds rest : list ascii) :
  parseInt cs = Some (ds, rest) -> (List.length rest < List.length cs)%nat.
Proof.
  unfold parseInt. intros H.
  repeat break_match; subst;
    try (injection H as <- <-; cbn [List.length]; lia);
    try (apply digits1_length in H; exact H).
Qed.

Lemma parseFrac_length (cs ds rest : list ascii) :
  parseFrac cs = Some (ds, rest) -> (List.length rest <= List.length cs)%nat.
Proof.
  unfold parseFrac. intros H.
  repeat break_match; subst; try discriminate;
    try (injection H as <- <-; cbn [List.length]; lia);
    match goal with
    | E : digits1 _ = Some _ |- _ => apply digits1_length in E
    end;
    injection H as <- <-; cbn [List.length]; lia.
Qed.

Lemma parseExp_length (cs ds rest : list ascii) :
  parseExp cs = Some (ds, rest) -> (List.length rest <= List.length cs)%nat.
Proof.
  unfold parseExp. intros H.
  repeat break_match; subst; try discriminate;
    try (injection H as <- <-; cbn [List.length]; lia);
    match goal with
    | E : digits1 _ = Some _ |- _ => apply digits1_length in E
    end;
    injection H as <- <-; cbn [List.length] in *; lia.
Qed.

Lemma parseNumber_length (cs : list ascii) (v : value) (rest : list ascii) :
  parseNumber cs = POk v rest -> (List.length rest < List.length cs)%nat.
Proof.
  unfold parseNumber. intros H.
  repeat break_match; subst; try discriminate;
    repeat match goal with
           | E : parseInt _ = Some _ |- _ => apply parseInt_length in E
           | E : parseFrac _ = Some _ |- _ => apply parseFrac_length in E
           | E : parseExp _ = Some _ |- _ => apply parseExp_length in E
           | E : (_, _) = (_, _) |- _ => injection E as <- <-
           end;
    injection H as <- <-; cbn [List.length] in *; lia.
Qed.

Lemma parseNumber_fuel (cs : list ascii) : parseNumber cs <> PFuel.
Proof. unfold parseNumber. repeat break_match; discriminate. Qed.

Lemma parseChars_spec (n : nat) (cs : list ascii) (acc : list Z) :
  (List.length cs <= n)%nat ->
  parseChars cs acc <> PFuel /\
  (forall s rest, parseChars cs acc = POk s rest -> (List.length rest < List.length cs)%nat).
Proof.
  revert cs acc. induction n as [|n IH]; intros cs acc Hn.
  - destruct cs; [|cbn [List.length] in Hn; lia].
    cbn. split; [discriminate | intros; discriminate].
  - destruct cs as [|c r]; [cbn; split; [discriminate | intros; discriminate]|].
    cbn [List.length] in Hn.
    assert (Hrec : forall cs' acc', (List.length cs' <= List.length r)%nat ->
              parseChars cs' acc' <> PFuel /\
              (forall s rest, parseChars cs' acc' = POk s rest ->
                 (List.length rest < S (List.length cs'))%nat)).
    { intros cs' acc' Hlen. destruct (IH cs' acc' ltac:(lia)) as [H1 H2].
      split; [exact H1|]. intros s rest E. specialize (H2 s rest E). lia. }
    cbn [parseChars].
    destruct (code c =? 34)%Z; [split; [discriminate | intros s rest E; injection E as <- <-; cbn; lia]|].
    destruct (code c <? 32)%Z; [split; [discriminate | intros; discriminate]|].
    destruct (code c =? 92)%Z.
    + destruct r as [|e r']; [split; [discriminate | intros; discriminate]|].
      cbn [List.length] in *.
      assert (Hsimple : forall u,
                parseChars r' (u :: acc) <> PFuel /\
                (forall s rest, parseChars r' (u :: acc) = POk s rest ->
                   (List.length rest < S (S (List.length r')))%nat)).
      { intros u. destruct (Hrec r' (u :: acc) ltac:(lia)) as [H1 H2].
        split; [exact H1|]. intros s rest E. specialize (H2 s rest E). lia. }
      repeat (match goal with
              | |- context [if (code e =? ?k)%Z then _ else _] =>
                  destruct (code e =? k)%Z; [apply Hsimple|]
              end).
      destruct (code e =? 117)%Z; [|split; [discriminate | intros; discriminate]].
      destruct r' as [|h1 [|h2 [|h3 [|h4 r'']]]];
        try (split; [discriminate | intros; discriminate]).
      destruct (hexValue h1), (hexValue h2), (hexValue h3), (hexValue h4);
        try (split; [discriminate | intros; discriminate]).
      cbn [List.length] in *.
      match goal with
      | |- parseChars r'' ?a <> _ /\ _ =>
          destruct (Hrec r'' a ltac:(lia)) as [H1 H2]
      end.
      split; [exact H1|]. intros s rest E. specialize (H2 s rest E). lia.
    + destruct (Hrec r (code c :: acc) ltac:(lia)) as [H1 H2].
      split; [exact H1|]. intros s rest E. specialize (H2 s rest E). cbn [List.length]. lia.
Qed.

Lemma parseChars_fuel (cs : list ascii) (acc : list Z) : parseChars cs acc <> PFuel.
Proof. apply (parseChars_spec (List.length cs) cs acc). lia. Qed.

Lemma parseChars_length (cs : list ascii) (acc s : list Z) (rest : list ascii) :
  parseChars cs acc = POk s rest -> (List.length rest < List.length cs)%nat.
Proof. apply (parseChars_spec (List.length cs) cs acc). lia. Qed.

Lemma stripPrefix_length (ps cs rest : list ascii) :
  stripPrefix ps cs = Some rest ->
  (List.length rest + List.length ps = List.length cs)%nat.
Proof.
  revert cs. induction ps as [|p ps IH]; intros cs H; cbn [stripPrefix] in H.
  - injection H as <-. cbn. lia.
  - destruct cs as [|c cs]; [discriminate|].
    destruct (code p =? code c)%Z; [|discriminate].
    specialize (IH cs H). cbn [List.length]. lia.
Qed.

Lemma startsWith_length (p : string) (cs rest : list ascii) :
  startsWith p cs = Some rest -> p <> ""%string ->
  (List.length rest < List.length cs)%nat.
Proof.
  unfold startsWith. intros H Hp. apply stripPrefix_length in H.
  destruct p; [contradiction|]. cbn [list_ascii_of_string List.length] in H. lia.
Qed.

(** Every successful parse consumes at least one character. *)
Lemma parse_progress (fuel : nat) :
  (forall cs v rest, parseValue fuel cs = POk v rest ->
     (List.length rest < List.length cs)%nat) /\
  (forall cs vs rest, parseElements fuel cs = POk vs rest ->
     (List.length rest < List.length cs)%nat) /\
  (forall cs ms rest, parseMembers fuel cs = POk ms rest ->
     (List.length rest < List.length cs)%nat).
Proof.
  induction fuel as [|f [IHv [IHe IHm]]].
  - repeat split; intros; discriminate.
  - split; [|split].
    + intros cs v rest H. cbn [parseValue] in H.
      pose proof (skipWs_length cs) as Hws.
      destruct (skipWs cs) as [|c r] eqn:Ecs; [discriminate|].
      cbn [List.length] in Hws.
      destruct (code c =? 34)%Z.
      { destruct (parseChars r []) as [s rest'| |] eqn:E; try discriminate.
        injection H as <- <-. apply parseChars_length in E. lia. }
      destruct (code c =? 91)%Z.
      { pose proof (skipWs_length r) as Hr.
        destruct (skipWs r) as [|d r'] eqn:Er; [discriminate|]. cbn [List.length] in Hr.
        destruct (code d =? 93)%Z; [injection H as <- <-; lia|].
        destruct (parseElements f r) as [items rest'| |] eqn:E; try discriminate.
        injection H as <- <-. apply IHe in E. lia. }
      destruct (code c =? 123)%Z.
      { pose proof (skipWs_length r) as Hr.
        destruct (skipWs r) as [|d r'] eqn:Er; [discriminate|]. cbn [List.length] in Hr.
        destruct (code d =? 125)%Z; [injection H as <- <-; lia|].
        destruct (parseMembers f r) as [members rest'| |] eqn:E; try discriminate.
        injection H as <- <-. apply IHm in E. lia. }
      destruct (startsWith "null" (c :: r)) as [r1|] eqn:E1.
      { injection H as <- <-. apply startsWith_length in E1; [|discriminate].
        cbn [List.length] in E1. lia. }
      destruct (startsWith "true" (c :: r)) as [r2|] eqn:E2.
      { injection H as <- <-. apply startsWith_length in E2; [|discriminate].
        cbn [List.length] in E2. lia. }
      destruct (startsWith "false" (c :: r)) as [r3|] eqn:E3.
      { injection H as <- <-. apply startsWith_length in E3; [|discriminate].
        cbn [List.length] in E3. lia. }
      apply parseNumber_length in H. cbn [List.length] in H. lia.
    + intros cs vs rest H. cbn [parseElements] in H.
      destruct (parseValue f cs) as [v rest1| |] eqn:Ev; try discriminate.
      apply IHv in Ev.
      pose proof (skipWs_length rest1) as Hr.
      destruct (skipWs rest1) as [|d r'] eqn:Er; [discriminate|]. cbn [List.length] in Hr.
      destruct (code d =? 93)%Z; [injection H as <- <-; lia|].
      destruct (code d =? 44)%Z; [|discriminate].
      destruct (parseElements f r') as [vs' rest2| |] eqn:E; try discriminate.
      injection H as <- <-. apply IHe in E. lia.
    + intros cs ms rest H. cbn [parseMembers] in H.
      pose proof (skipWs_length cs) as Hws.
      destruct (skipWs cs) as [|q r] eqn:Ecs; [discriminate|]. cbn [List.length] in Hws.
      destruct (code q =? 34)%Z; [|discriminate].
      destruct (parseChars r []) as [key rest0| |] eqn:Ek; try discriminate.
      apply parseChars_length in Ek.
      pose proof (skipWs_length rest0) as H0.
      destruct (skipWs rest0) as [|colon r1] eqn:E0; [discriminate|]. cbn [List.length] in H0.
      destruct (code colon =? 58)%Z; [|discriminate].
      destruct (parseValue f r1) as [v rest1| |] eqn:Ev; try discriminate.
      apply IHv in Ev.
      pose proof (skipWs_length rest1) as H1.
      destruct (skipWs rest1) as [|d r2] eqn:E1; [discriminate|]. cbn [List.length] in H1.
      destruct (code d =? 125)%Z; [injection H as <- <-; lia|].
      destruct (code d =? 44)%Z; [|discriminate].
      destruct (parseMembers f r2) as [ms' rest2| |] eqn:E; try discriminate.
      injection H as <- <-. apply IHm in E. lia.
Qed.

(** With more than twice the length of the text as fuel, the parser
    answers without exhausting it. *)
Lemma parse_fuel (fuel : nat) :
  (forall cs, (2 * List.length cs + 1 <= fuel)%nat -> parseValue fuel cs <> PFuel) /\
  (forall cs, (2 * List.length cs + 2 <= fuel)%nat -> parseElements fuel cs <> PFuel) /\
  (forall cs, (2 * List.length cs + 2 <= fuel)%nat -> parseMembers fuel cs <> PFuel).
Proof.
  induction fuel as [|f [IHv [IHe IHm]]].
  - repeat split; intros cs H; lia.
  - split; [|split].
    + intros cs Hf. cbn [parseValue].
      pose proof (skipWs_length cs) as Hws.
      destruct (skipWs cs) as [|c r] eqn:Ecs; [discriminate|].
      cbn [List.length] in Hws.
      destruct (code c =? 34)%Z.
      { pose proof (parseChars_fuel r []) as Hc.
        destruct (parseChars r []); [discriminate | discriminate | contradiction]. }
      destruct (code c =? 91)%Z.
      { destruct (skipWs r) as [|d r'] eqn:Er; [discriminate|].
        destruct (code d =? 93)%Z; [discriminate|].
        specialize (IHe r ltac:(lia)).
        destruct (parseElements f r); [discriminate | discriminate | contradiction]. }
      destruct (code c =? 123)%Z.
      { destruct (skipWs r) as [|d r'] eqn:Er; [discriminate|].
        destruct (code d =? 125)%Z; [discriminate|].
        specialize (IHm r ltac:(lia)).
        destruct (parseMembers f r); [discriminate | discriminate | contradiction]. }
      destruct (startsWith "null" (c :: r)); [discriminate|].
      destruct (startsWith "true" (c :: r)); [discriminate|].
      destruct (startsWith "false" (c :: r)); [discriminate|].
      apply parseNumber_fuel.
    + intros cs Hf. cbn [parseElements].
      specialize (IHv cs ltac:(lia)).
      destruct (parseValue f cs) as [v rest1| |] eqn:Ev; [|discriminate|contradiction].
      apply (proj1 (parse_progress f)) in Ev.
      pose proof (skipWs_length rest1) as Hr.
      destruct (skipWs rest1) as [|d r'] eqn:Er; [discriminate|]. cbn [List.length] in Hr.
      destruct (code d =? 93)%Z; [discriminate|].
      destruct (code d =? 44)%Z; [|discriminate].
      specialize (IHe r' ltac:(lia)).
      destruct (parseElements f r'); [discriminate | discriminate | contradiction].
    + intros cs Hf. cbn [parseMembers].
      pose proof (skipWs_length cs) as Hws.
      destruct (skipWs cs) as [|q r] eqn:Ecs; [discriminate|]. cbn [List.length] in Hws.
      destruct (code q =? 34)%Z; [|discriminate].
      pose proof (parseChars_fuel r []) as Hc.
      destruct (parseChars r []) as [key rest0| |] eqn:Ek; [|discriminate|contradiction].
      apply parseChars_length in Ek.
      pose proof (skipWs_length rest0) as H0.
      destruct (skipWs rest0) as [|colon r1] eqn:E0; [discriminate|]. cbn [List.length] in H0.
      destruct (code colon =? 58)%Z; [|discriminate].
      specialize (IHv r1 ltac:(lia)).
      destruct (parseValue f r1) as [v rest1| |] eqn:Ev; [|discriminate|contradiction].
      apply (proj1 (parse_progress f)) in Ev.
      pose proof (skipWs_length rest1) as H1.
      destruct (skipWs rest1) as [|d r2] eqn:E1; [discriminate|]. cbn [List.length] in H1.
      destruct (code d =? 125)%Z; [discriminate|].
      destruct (code d =? 44)%Z; [|discriminate].
      specialize (IHm r2 ltac:(lia)).
      destruct (parseMembers f r2); [discriminate | discriminate | contradiction].
Qed.

(** So [JSON.parse] throws only on a text that is not JSON. *)
Lemma parse_never_out_of_fuel (text : string) :
  parseValue (2 * List.length (list_ascii_of_string text) + 2) (list_ascii_of_string text)
  <> PFuel.
Proof. apply (proj1 (parse_fuel _)). lia. Qed.

End ParserFuel.
(* ===================================================================== *)
(** * The update loops *)
(* ===================================================================== *)

Section Loops.

Import Renderer Spec.

Context {A : Type}.
Implicit Types (step : A -> option (A * DrawCall * nat)).

Lemma backwards_cons step (entry : A) (entries : list A) (rnd : nat) (log : list DrawCall) :
  backwards step (entry :: entries) rnd log =
  match step entry with
  | None => backwards step entries rnd log
  | Some (entry', call, n) =>
      {| kept := entry' :: kept (backwards step entries rnd log);
         randomCalls := (randomCalls (backwards step entries rnd log) + n)%nat;
         drawn := (drawn (backwards step entries rnd log) ++ [call])%list |}
  end.
Proof. reflexivity. Qed.

(** The survivors, in their original order. *)
Lemma backwards_kept step (entries : list A) (rnd : nat) (log : list DrawCall) :
  kept (backwards step entries rnd log) = collect (keptOf step) entries.
Proof.
  induction entries as [|entry entries IH]; [reflexivity|].
  rewrite backwards_cons. cbn [collect]. unfold keptOf at 1.
  destruct (step entry) as [[[entry' call] n]|]; cbn [kept]; now rewrite IH.
Qed.

(** The draw calls, the last entry first. *)
Lemma backwards_drawn step (entries : list A) (rnd : nat) (log : list DrawCall) :
  drawn (backwards step entries rnd log) =
  (log ++ List.rev (collect (callOf step) entries))%list.
Proof.
  induction entries as [|entry entries IH]; [cbn; symmetry; apply List.app_nil_r|].
  rewrite backwards_cons. cbn [collect]. unfold callOf at 1.
  destruct (step entry) as [[[entry' call] n]|]; cbn [drawn List.rev]; rewrite IH; [|reflexivity].
  now rewrite <- List.app_assoc.
Qed.

Lemma collect_Forall {B : Type} (f : A -> option B) (P : B -> Prop) (l : list A) :
  (forall a b, List.In a l -> f a = Some b -> P b) -> List.Forall P (collect f l).
Proof.
  induction l as [|a l IH]; intros H; cbn [collect]; [constructor|].
  destruct (f a) as [b|] eqn:E.
  - constructor; [apply (H a); [now left | assumption]|].
    apply IH. intros a' b' Hin. apply H. now right.
  - apply IH. intros a' b' Hin. apply H. now right.
Qed.

Lemma collect_length_filter {B : Type} (f : A -> option B) (alive : A -> bool) (l : list A) :
  (forall a, alive a = true <-> is_Some (f a)) ->
  List.length (collect f l) = List.length (List.filter alive l).
Proof.
  intros H. induction l as [|a l IH]; [reflexivity|]. cbn [collect List.filter].
  destruct (f a) as [b|] eqn:E; destruct (alive a) eqn:Ea; cbn [List.length]; try now rewrite IH.
  - assert (Hs : is_Some (f a)) by (rewrite E; eauto).
    apply H in Hs. congruence.
  - assert (Hs : is_Some (f a)) by now apply H.
    rewrite E in Hs. destruct Hs. discriminate.
Qed.


End Loops.

Section Comparisons.

Lemma ge_true (a b : Q) : JS.ge a b = true <-> b <= a.
Proof. unfold JS.ge. apply Qle_bool_iff. Qed.


Lemma gt_true (a b : Q) : JS.gt a b = true <-> b < a.
Proof. unfold JS.gt. apply (lt_true b a). Qed.

Lemma gt_false (a b : Q) : JS.gt a b = false <-> a <= b.
Proof. unfold JS.gt. apply (lt_false b a). Qed.

(** [Math.min(elapsed / duration, 1) >= 1] says the lifetime is over. *)
Lemma progress_complete (elapsed duration : Q) :
  0 < duration ->
  (JS.ge (JS.min (elapsed / duration) 1) 1 = true <-> duration <= elapsed).
Proof.
  intros Hd. rewrite ge_true. unfold JS.min.
  destruct (Qle_bool (elapsed / duration) 1) eqn:E.
  - apply Qle_bool_iff in E. split.
    + intros H. assert (Hq : 1 * duration <= elapsed).
      { apply (Qmult_le_r _ _ (/ duration)); [now apply Qinv_lt_0_compat|].
        assert (F : 1 * duration * / duration == 1) by (field; now apply Qpos_nonzero).
        rewrite F. exact H. }
      lra.
    + intros H. apply Qle_shift_div_l; [assumption|]. lra.
  - split; [|intros _; apply Qle_refl].
    intros _. assert (Hlt : 1 < elapsed / duration).
    { apply Qnot_le_lt. intros H. apply Qle_bool_iff in H. congruence. }
    assert (Hq : 1 * duration < elapsed).
    { apply (Qmult_lt_r _ _ (/ duration)); [now apply Qinv_lt_0_compat|].
      assert (F : 1 * duration * / duration == 1) by (field; now apply Qpos_nonzero).
      rewrite F. exact Hlt. }
    lra.
Qed.

End Comparisons.
(* ===================================================================== *)
(** * Update loops that a throwing draw leaves *)
(* ===================================================================== *)

Section AbortableLoops.

Import Renderer Spec.

Context {A : Type}.
Implicit Types (step : A -> Iteration A).

Lemma untilThrow_cons step (entry : A) (entries : list A) (rnd : nat) (log : list DrawCall) :
  backwardsUntilThrow step (entry :: entries) rnd log =
  let acc := backwardsUntilThrow step entries rnd log in
  match raised acc with
  | Some _ =>
      {| left := entry :: left acc; randomsRead := randomsRead acc;
         painted := painted acc; raised := raised acc |}
  | None =>
      match step entry with
      | Splice => acc
      | Draw entry' call n =>
          {| left := entry' :: left acc; randomsRead := (randomsRead acc + n)%nat;
             painted := (painted acc ++ [call])%list; raised := None |}
      | Abort entry' e =>
          {| left := entry' :: left acc; randomsRead := randomsRead acc;
             painted := painted acc; raised := Some e |}
      end
  end.
Proof. reflexivity. Qed.




(** The entries after the ones looked at come through as a block. *)
Lemma untilThrow_app_left step (earlier later : list A) (rnd : nat) (log : list DrawCall) :
  exists older,
    left (backwardsUntilThrow step (earlier ++ later) rnd log) =
    (older ++ left (backwardsUntilThrow step later rnd log))%list.
Proof.
  induction earlier as [|entry earlier [older IH]].
  - now exists [].
  - change ((entry :: earlier) ++ later)%list with (entry :: (earlier ++ later))%list.
    rewrite untilThrow_cons. cbv zeta.
    destruct (raised (backwardsUntilThrow step (earlier ++ later) rnd log)).
    + exists (entry :: older). cbn [left]. now rewrite IH.
    + destruct (step entry) as [|entry' call n|entry' e]; cbn [left].
      * now exists older.
      * exists (entry' :: older). now rewrite IH.
      * exists (entry' :: older). now rewrite IH.
Qed.

(** Entries that no iteration splices all come through, each as it was or
    as its iteration left it. *)
Lemma untilThrow_keeps step (R : A -> A -> Prop) (entries : list A) (rnd : nat)
  (log : list DrawCall) :
  (forall a, List.In a entries ->
     R a a /\
     match step a with
     | Splice => False
     | Draw a' _ _ => R a a'
     | Abort a' _ => R a a'
     end) ->
  List.Forall2 R entries (left (backwardsUntilThrow step entries rnd log)).
Proof.
  induction entries as [|entry entries IH]; intros H; [constructor|].
  rewrite untilThrow_cons. cbv zeta.
  assert (IH' := IH (fun a Ha => H a (or_intror Ha))).
  destruct (H entry (or_introl eq_refl)) as [Hr Hs].
  destruct (raised (backwardsUntilThrow step entries rnd log)).
  - cbn [left]. now constructor.
  - destruct (step entry) as [|entry' call n|entry' e]; cbn [left];
      [contradiction | now constructor | now constructor].
Qed.


End AbortableLoops.
(* ===================================================================== *)
(** * The easing curves and the progress of an entity *)
(* ===================================================================== *)

Section EasingCurves.

Import Renderer Spec.


Lemma square_monotone (a b : Q) : 0 <= a -> a <= b -> a * a <= b * b.
Proof.
  intros Ha Hab. apply Qle_trans with (a * b).
  - assert (0 <= a * (b - a)) by (apply Qmult_le_0_compat; lra). lra.
  - assert (0 <= (b - a) * b) by (apply Qmult_le_0_compat; lra). lra.
Qed.





Lemma easeInOutQuad_monotone (s t : Q) :
  0 <= s -> s <= t -> t <= 1 -> easeInOutQuad s <= easeInOutQuad t.
Proof.
  intros Hs Hst Ht. unfold easeInOutQuad.
  assert (E : forall v, v / 2 == v * (1 # 2)) by (intros v; field).
  destruct (JS.lt t (1 # 2)) eqn:Et; destruct (JS.lt s (1 # 2)) eqn:Es;
    repeat match goal with
           | H : JS.lt _ _ = true |- _ => apply lt_true in H
           | H : JS.lt _ _ = false |- _ => apply lt_false in H
           end.
  - pose proof (square_monotone s t Hs Hst). lra.
  - lra.
  - pose proof (square_monotone s (1 # 2) Hs ltac:(lra)) as H1.
    pose proof (square_monotone (-2 * t + 2) 1 ltac:(lra) ltac:(lra)) as H2.
    rewrite E. lra.
  - pose proof (square_monotone (-2 * t + 2) (-2 * s + 2) ltac:(lra) ltac:(lra)) as H.
    rewrite !E. lra.
Qed.




Lemma product_bounds (base a b lo : Q) :
  0 <= base -> 0 <= lo -> lo <= a * b -> a * b <= 1 ->
  lo * base <= base * a * b /\ base * a * b <= base.
Proof.
  intros Hb Hlo H1 H2.
  assert (A1 : 0 <= base * (a * b - lo)) by (apply Qmult_le_0_compat; lra).
  assert (A2 : 0 <= base * (1 - a * b)) by (apply Qmult_le_0_compat; lra).
  split; lra.
Qed.




End EasingCurves.
(* ===================================================================== *)
(** * Retiring entities outside the fade mode *)
(* ===================================================================== *)

Section Retirement.

Import Renderer Spec.

(** ** The renderer without fade options *)

(** An iteration splices exactly when the lifetime is over; otherwise the
    entry goes on with its start time and lifetime, drawn or not. *)
Lemma legacy_stepShape_cases (P : Platform) (animationTime now : Q) (shape : AnimatedShape) :
  0 < duration shape ->
  (duration shape <= elapsed now shape /\
   LegacyRenderer.stepShape P animationTime now shape = Splice) \/
  (elapsed now shape < duration shape /\
   exists shape',
     startTime shape' = startTime shape /\ duration shape' = duration shape /\
     baseSize shape' = baseSize shape /\ baseOpacity shape' = baseOpacity shape /\
     Renderer.type shape' = Renderer.type shape /\
     ((exists opacity,
         0 <= baseSize shape * scale shape' /\
         LegacyRenderer.stepShape P animationTime now shape =
           Draw shape' (DrawShape shape' (baseSize shape * scale shape') opacity)
             (drawRandomCalls shape')) \/
      (baseSize shape * scale shape' < 0 /\
       LegacyRenderer.stepShape P animationTime now shape = Abort shape' JS.IndexSizeError))).
Proof.
  intros Hd. unfold LegacyRenderer.stepShape, elapsed. cbv zeta.
  destruct (JS.ge _ 1) eqn:E.
  - left. apply (progress_complete _ _ Hd) in E. split; [exact E | reflexivity].
  - right. split.
    + apply Qnot_le_lt. intros H. apply (progress_complete _ _ Hd) in H. congruence.
    + match goal with
      | |- context [moveShape shape ?sc true] => exists (moveShape shape sc true)
      end.
      do 5 (split; [reflexivity|]).
      destruct (JS.lt _ 0) eqn:Es.
      * right. apply lt_true in Es. split; [exact Es | reflexivity].
      * left. apply lt_false in Es. eexists. split; [exact Es | reflexivity].
Qed.

Lemma legacy_stepParticle_cases (now : Q) (p : Particle) :
  0 < pduration p ->
  (pduration p <= pelapsed now p /\ LegacyRenderer.stepParticle now p = Splice) \/
  (pelapsed now p < pduration p /\
   exists p',
     pstartTime p' = pstartTime p /\ pduration p' = pduration p /\
     Renderer.size p' = Renderer.size p /\
     ((0 <= Renderer.size p * pscale p' /\
       LegacyRenderer.stepParticle now p =
         Draw p' (DrawParticle p' (life p') (Renderer.size p * pscale p')) 0%nat) \/
      (Renderer.size p * pscale p' < 0 /\
       LegacyRenderer.stepParticle now p = Abort p' JS.IndexSizeError))).
Proof.
  intros Hd. unfold LegacyRenderer.stepParticle, pelapsed. cbv zeta.
  destruct (JS.ge _ 1) eqn:E.
  - left. apply (progress_complete _ _ Hd) in E. split; [exact E | reflexivity].
  - right. split.
    + apply Qnot_le_lt. intros H. apply (progress_complete _ _ Hd) in H. congruence.
    + match goal with
      | |- context [moveParticle p ?sc ?l true] => exists (moveParticle p sc l true)
      end.
      do 3 (split; [reflexivity|]).
      destruct (JS.lt _ 0) eqn:Es.
      * right. apply lt_true in Es. split; [exact Es | reflexivity].
      * left. apply lt_false in Es. split; [exact Es | reflexivity].
Qed.












(** ** The fade-aware renderer with [fadeEnabled = false] *)






End Retirement.
(* ===================================================================== *)
(** * The fade mode *)
(* ===================================================================== *)

Section FadeMode.

Import Renderer Spec.

(** ** The envelope *)

Lemma fadeEnvelope_hold (fadeStart base elapsed : Q) :
  elapsed <= fadeStart -> fadeEnvelope fadeStart base elapsed = base.
Proof.
  intros H. unfold fadeEnvelope. apply Qle_bool_iff in H. now rewrite H.
Qed.

Lemma fadeEnvelope_descent (fadeStart base elapsed : Q) :
  fadeStart < elapsed ->
  fadeEnvelope fadeStart base elapsed = base * (1 - (elapsed - fadeStart) / 1500).
Proof.
  intros H. unfold fadeEnvelope.
  destruct (Qle_bool elapsed fadeStart) eqn:E; [|reflexivity].
  apply Qle_bool_iff in E. exfalso. exact (Qlt_not_le _ _ H E).
Qed.

Lemma fadeEnvelope_end (fadeStart base : Q) :
  fadeEnvelope fadeStart base (fadeStart + 1500) == 0.
Proof.
  rewrite fadeEnvelope_descent by lra. field.
Qed.

(** ** One entity *)

Lemma fade_stepShape_removed (P : Platform) (options : VisualRenderer.RenderOptions)
  (animationTime now : Q) (shape : AnimatedShape) :
  VisualRenderer.fadeEnabled options = true ->
  VisualRenderer.fadeDuration options + 1500 < elapsed now shape ->
  VisualRenderer.stepShape P options animationTime now shape = None.
Proof.
  intros H Hlate. unfold VisualRenderer.stepShape. rewrite H.
  apply gt_true in Hlate. unfold elapsed in Hlate. now rewrite Hlate.
Qed.

Lemma fade_stepShape_drawn (P : Platform) (options : VisualRenderer.RenderOptions)
  (animationTime now : Q) (shape : AnimatedShape) :
  VisualRenderer.fadeEnabled options = true ->
  elapsed now shape <= VisualRenderer.fadeDuration options + 1500 ->
  exists shape' size n,
    VisualRenderer.stepShape P options animationTime now shape =
      Some (shape',
            DrawShape shape' size
              (fadeEnvelope (VisualRenderer.fadeDuration options) (baseOpacity shape)
                 (elapsed now shape)), n) /\
    startTime shape' = startTime shape /\ baseOpacity shape' = baseOpacity shape.
Proof.
  intros H Hin. unfold VisualRenderer.stepShape. rewrite H.
  apply gt_false in Hin. unfold elapsed in *. rewrite Hin.
  unfold fadeEnvelope, JS.gt.
  destruct (Qle_bool (now - startTime shape) (VisualRenderer.fadeDuration options));
    cbn [negb]; do 3 eexists; (split; [reflexivity | split; reflexivity]).
Qed.

Lemma fade_stepParticle_removed (options : VisualRenderer.RenderOptions)
  (now : Q) (p : Particle) :
  VisualRenderer.fadeEnabled options = true ->
  VisualRenderer.fadeDuration options + 1500 < pelapsed now p ->
  VisualRenderer.stepParticle options now p = None.
Proof.
  intros H Hlate. unfold VisualRenderer.stepParticle. rewrite H.
  apply gt_true in Hlate. unfold pelapsed in Hlate. now rewrite Hlate.
Qed.

Lemma fade_stepParticle_drawn (options : VisualRenderer.RenderOptions)
  (now : Q) (p : Particle) :
  VisualRenderer.fadeEnabled options = true ->
  pelapsed now p <= VisualRenderer.fadeDuration options + 1500 ->
  exists p' globalAlpha radius n,
    VisualRenderer.stepParticle options now p =
      Some (p', DrawParticle p' globalAlpha radius, n) /\
    globalAlpha == fadeEnvelope (VisualRenderer.fadeDuration options) 1 (pelapsed now p) /\
    pstartTime p' = pstartTime p.
Proof.
  intros H Hin. unfold VisualRenderer.stepParticle. rewrite H.
  apply gt_false in Hin. unfold pelapsed in *. rewrite Hin.
  unfold fadeEnvelope, JS.gt.
  destruct (Qle_bool (now - pstartTime p) (VisualRenderer.fadeDuration options));
    cbn [negb]; do 4 eexists; (split; [reflexivity | split; [|reflexivity]]).
  - reflexivity.
  - ring.
Qed.

(** ** The whole tick *)

Lemma fade_shape_calls (P : Platform) (options : VisualRenderer.RenderOptions)
  (animationTime now : Q) (shapes : list AnimatedShape) :
  VisualRenderer.fadeEnabled options = true ->
  List.Forall (followsEnvelope (VisualRenderer.fadeDuration options) now)
    (collect (callOf (VisualRenderer.stepShape P options animationTime now)) shapes).
Proof.
  intros H. apply collect_Forall. intros shape call _ Hcall.
  unfold callOf in Hcall.
  destruct (Qlt_le_dec (VisualRenderer.fadeDuration options + 1500) (elapsed now shape))
    as [Hlate | Hin].
  - rewrite (fade_stepShape_removed P options animationTime now shape H Hlate) in Hcall.
    discriminate.
  - destruct (fade_stepShape_drawn P options animationTime now shape H Hin)
      as [shape' [size [n [E [Hs Hb]]]]].
    rewrite E in Hcall. injection Hcall as <-.
    cbn [followsEnvelope]. rewrite Hs, Hb. reflexivity.
Qed.

Lemma fade_particle_calls (options : VisualRenderer.RenderOptions)
  (now : Q) (ps : list Particle) :
  VisualRenderer.fadeEnabled options = true ->
  List.Forall (followsEnvelope (VisualRenderer.fadeDuration options) now)
    (collect (callOf (VisualRenderer.stepParticle options now)) ps).
Proof.
  intros H. apply collect_Forall. intros p call _ Hcall.
  unfold callOf in Hcall.
  destruct (Qlt_le_dec (VisualRenderer.fadeDuration options + 1500) (pelapsed now p))
    as [Hlate | Hin].
  - rewrite (fade_stepParticle_removed options now p H Hlate) in Hcall. discriminate.
  - destruct (fade_stepParticle_drawn options now p H Hin)
      as [p' [alpha [radius [n [E [Ha Hs]]]]]].
    rewrite E in Hcall. injection Hcall as <-.
    cbn [followsEnvelope]. rewrite Hs. exact Ha.
Qed.

Lemma fade_shape_alive (P : Platform) (options : VisualRenderer.RenderOptions)
  (animationTime now : Q) (shape : AnimatedShape) :
  VisualRenderer.fadeEnabled options = true ->
  (JS.ge (VisualRenderer.fadeDuration options + 1500) (elapsed now shape) = true <->
   is_Some (keptOf (VisualRenderer.stepShape P options animationTime now) shape)).
Proof.
  intros H. rewrite ge_true. unfold keptOf. split.
  - intros Hin.
    destruct (fade_stepShape_drawn P options animationTime now shape H Hin)
      as [shape' [size [n [E _]]]].
    rewrite E. eauto.
  - intros Hs. apply Qnot_lt_le. intros Hlate.
    rewrite (fade_stepShape_removed P options animationTime now shape H Hlate) in Hs.
    destruct Hs. discriminate.
Qed.

Lemma fade_particle_alive (options : VisualRenderer.RenderOptions) (now : Q) (p : Particle) :
  VisualRenderer.fadeEnabled options = true ->
  (JS.ge (VisualRenderer.fadeDuration options + 1500) (pelapsed now p) = true <->
   is_Some (keptOf (VisualRenderer.stepParticle options now) p)).
Proof.
  intros H. rewrite ge_true. unfold keptOf. split.
  - intros Hin.
    destruct (fade_stepParticle_drawn options now p H Hin)
      as [p' [alpha [radius [n [E _]]]]].
    rewrite E. eauto.
  - intros Hs. apply Qnot_lt_le. intros Hlate.
    rewrite (fade_stepParticle_removed options now p H Hlate) in Hs.
    destruct Hs. discriminate.
Qed.

Lemma fade_shape_kept (P : Platform) (options : VisualRenderer.RenderOptions)
  (animationTime now : Q) (shape shape' : AnimatedShape) :
  VisualRenderer.fadeEnabled options = true ->
  keptOf (VisualRenderer.stepShape P options animationTime now) shape = Some shape' ->
  elapsed now shape' <= VisualRenderer.fadeDuration options + 1500.
Proof.
  intros H Hk.
  assert (Hs : is_Some (keptOf (VisualRenderer.stepShape P options animationTime now) shape))
    by (rewrite Hk; eauto).
  apply fade_shape_alive in Hs; [|assumption]. apply ge_true in Hs.
  destruct (fade_stepShape_drawn P options animationTime now shape H Hs)
    as [s2 [size [n [E [Hst _]]]]].
  unfold keptOf in Hk. rewrite E in Hk. injection Hk as <-.
  unfold elapsed in *. now rewrite Hst.
Qed.

Lemma fade_particle_kept (options : VisualRenderer.RenderOptions)
  (now : Q) (p p' : Particle) :
  VisualRenderer.fadeEnabled options = true ->
  keptOf (VisualRenderer.stepParticle options now) p = Some p' ->
  pelapsed now p' <= VisualRenderer.fadeDuration options + 1500.
Proof.
  intros H Hk.
  assert (Hs : is_Some (keptOf (VisualRenderer.stepParticle options now) p))
    by (rewrite Hk; eauto).
  apply fade_particle_alive in Hs; [|assumption]. apply ge_true in Hs.
  destruct (fade_stepParticle_drawn options now p H Hs)
    as [p2 [alpha [radius [n [E [_ Hst]]]]]].
  unfold keptOf in Hk. rewrite E in Hk. injection Hk as <-.
  unfold pelapsed in *. now rewrite Hst.
Qed.

Lemma fade_update (P : Platform) (now : Q) (st : VisualRenderer.State) :
  VisualRenderer.fadeEnabled (VisualRenderer.currentOptions st) = true ->
  List.Forall
    (fun shape => elapsed now shape <=
                  VisualRenderer.fadeDuration (VisualRenderer.currentOptions st) + 1500)
    (VisualRenderer.animatedShapes (VisualRenderer.updateAnimatedElements P now st)) /\
  List.Forall
    (fun p => pelapsed now p <=
              VisualRenderer.fadeDuration (VisualRenderer.currentOptions st) + 1500)
    (VisualRenderer.particles (VisualRenderer.updateAnimatedElements P now st)) /\
  List.length (VisualRenderer.animatedShapes (VisualRenderer.updateAnimatedElements P now st)) =
    List.length
      (List.filter
         (fun shape => JS.ge (VisualRenderer.fadeDuration (VisualRenderer.currentOptions st) + 1500)
                         (elapsed now shape))
         (VisualRenderer.animatedShapes st)) /\
  List.length (VisualRenderer.particles (VisualRenderer.updateAnimatedElements P now st)) =
    List.length
      (List.filter
         (fun p => JS.ge (VisualRenderer.fadeDuration (VisualRenderer.currentOptions st) + 1500)
                     (pelapsed now p))
         (VisualRenderer.particles st)) /\
  exists calls : list DrawCall,
    VisualRenderer.canvas (VisualRenderer.updateAnimatedElements P now st) =
      (VisualRenderer.canvas st ++ calls)%list /\
    List.Forall
      (followsEnvelope (VisualRenderer.fadeDuration (VisualRenderer.currentOptions st)) now)
      calls.
Proof.
  intros H.
  unfold VisualRenderer.updateAnimatedElements, VisualRenderer.updateParticles,
    VisualRenderer.updateAnimatedShapes.
  cbn [VisualRenderer.animatedShapes VisualRenderer.particles VisualRenderer.rndCalls
       VisualRenderer.canvas VisualRenderer.animationTime VisualRenderer.currentOptions].
  rewrite !backwards_kept, !backwards_drawn.
  split; [|split; [|split; [|split]]].
  - apply collect_Forall. intros a b _. now apply fade_shape_kept.
  - apply collect_Forall. intros a b _. now apply fade_particle_kept.
  - apply collect_length_filter. intros a. now apply fade_shape_alive.
  - apply collect_length_filter. intros a. now apply fade_particle_alive.
  - eexists. split; [symmetry; apply List.app_assoc|].
    apply List.Forall_app. split; apply List.Forall_rev.
    + now apply fade_shape_calls.
    + now apply fade_particle_calls.
Qed.

(** Scenario C: a fade duration of 3000 ms and a shape spawned at time 0. *)
Lemma fade_scenario (P : Platform) (options : VisualRenderer.RenderOptions)
  (animationTime now : Q) (shape : AnimatedShape) :
  VisualRenderer.fadeEnabled options = true ->
  VisualRenderer.fadeDuration options == 3000 ->
  startTime shape == 0 ->
  (now <= 4500 ->
   exists shape' size opacity n,
     VisualRenderer.stepShape P options animationTime now shape =
       Some (shape', DrawShape shape' size opacity, n) /\
     (now <= 3000 -> opacity = baseOpacity shape) /\
     (3000 < now -> opacity == baseOpacity shape * (1 - (now - 3000) / 1500)) /\
     (now == 4500 -> opacity == 0)) /\
  (4500 < now -> VisualRenderer.stepShape P options animationTime now shape = None).
Proof.
  intros H HD Hst.
  assert (Hel : elapsed now shape == now) by (unfold elapsed; rewrite Hst; ring).
  split.
  - intros Hnow.
    assert (Hin : elapsed now shape <= VisualRenderer.fadeDuration options + 1500)
      by (rewrite Hel, HD; lra).
    destruct (fade_stepShape_drawn P options animationTime now shape H Hin)
      as [shape' [size [n [E _]]]].
    do 4 eexists. split; [exact E|]. split; [|split].
    + intros Hearly. apply fadeEnvelope_hold. rewrite Hel, HD. exact Hearly.
    + intros Hlate. rewrite fadeEnvelope_descent by (rewrite Hel, HD; exact Hlate).
      rewrite Hel, HD. reflexivity.
    + intros Hend. rewrite fadeEnvelope_descent by (rewrite Hel, HD, Hend; reflexivity).
      rewrite Hel, HD, Hend. field.
  - intros Hlate. apply fade_stepShape_removed; [assumption|].
    rewrite Hel, HD. lra.
Qed.

(** C2 (as amended).  With [fadeEnabled = true] a tick removes exactly the
    entities whose elapsed time exceeds [fadeDuration + 1500] and draws
    every other one at the opacity of the fade envelope taken at that
    entity's own elapsed time (now minus its own start time): the base
    opacity up to [fadeDuration], then a linear descent to 0 at
    [fadeDuration + 1500].  With [fadeDuration = 3000], a shape spawned at
    time 0 is drawn at its base opacity up to 3000 ms, then fades linearly
    to 0 at 4500 ms, and is removed once 4500 ms are exceeded. *)
Theorem fade_window_per_entity :
  (forall (P : Platform) (now : Q) (st : VisualRenderer.State),
     VisualRenderer.fadeEnabled (VisualRenderer.currentOptions st) = true ->
     List.Forall
       (fun shape => elapsed now shape <=
                     VisualRenderer.fadeDuration (VisualRenderer.currentOptions st) + 1500)
       (VisualRenderer.animatedShapes (VisualRenderer.updateAnimatedElements P now st)) /\
     List.Forall
       (fun p => pelapsed now p <=
                 VisualRenderer.fadeDuration (VisualRenderer.currentOptions st) + 1500)
       (VisualRenderer.particles (VisualRenderer.updateAnimatedElements P now st)) /\
     List.length (VisualRenderer.animatedShapes (VisualRenderer.updateAnimatedElements P now st)) =
       List.length
         (List.filter
            (fun shape =>
               JS.ge (VisualRenderer.fadeDuration (VisualRenderer.currentOptions st) + 1500)
                 (elapsed now shape))
            (VisualRenderer.animatedShapes st)) /\
     List.length (VisualRenderer.particles (VisualRenderer.updateAnimatedElements P now st)) =
       List.length
         (List.filter
            (fun p =>
               JS.ge (VisualRenderer.fadeDuration (VisualRenderer.currentOptions st) + 1500)
                 (pelapsed now p))
            (VisualRenderer.particles st)) /\
     exists calls : list DrawCall,
       VisualRenderer.canvas (VisualRenderer.updateAnimatedElements P now st) =
         (VisualRenderer.canvas st ++ calls)%list /\
       List.Forall
         (followsEnvelope (VisualRenderer.fadeDuration (VisualRenderer.currentOptions st)) now)
         calls) /\
  (forall (fadeStart base elapsed : Q),
     (elapsed <= fadeStart -> fadeEnvelope fadeStart base elapsed = base) /\
     (fadeStart < elapsed ->
      fadeEnvelope fadeStart base elapsed = base * (1 - (elapsed - fadeStart) / 1500)) /\
     fadeEnvelope fadeStart base (fadeStart + 1500) == 0) /\
  (forall (P : Platform) (options : VisualRenderer.RenderOptions)
          (animationTime now : Q) (shape : AnimatedShape),
     VisualRenderer.fadeEnabled options = true ->
     VisualRenderer.fadeDuration options == 3000 ->
     startTime shape == 0 ->
     (now <= 4500 ->
      exists shape' size opacity n,
        VisualRenderer.stepShape P options animationTime now shape =
          Some (shape', DrawShape shape' size opacity, n) /\
        (now <= 3000 -> opacity = baseOpacity shape) /\
        (3000 < now -> opacity == baseOpacity shape * (1 - (now - 3000) / 1500)) /\
        (now == 4500 -> opacity == 0)) /\
     (4500 < now -> VisualRenderer.stepShape P options animationTime now shape = None)).
Proof.
  split; [exact fade_update|]. split; [|exact fade_scenario].
  intros fadeStart base elapsed.
  split; [apply fadeEnvelope_hold|]. split; [apply fadeEnvelope_descent|].
  apply fadeEnvelope_end.
Qed.

End FadeMode.
(* ===================================================================== *)
(** * Spawning *)
(* ===================================================================== *)

Section Spawning.

Import Renderer Spec.

Lemma collect_app {A B : Type} (f : A -> option B) (l l' : list A) :
  collect f (l ++ l') = (collect f l ++ collect f l')%list.
Proof.
  induction l as [|a l IH]; [reflexivity|]. cbn [collect List.app].
  destruct (f a); cbn [List.app]; now rewrite IH.
Qed.

Lemma collect_all {A B : Type} (f : A -> option B) (Q : B -> Prop) (l : list A) :
  (forall a, List.In a l -> exists b, f a = Some b /\ Q b) ->
  List.length (collect f l) = List.length l /\ List.Forall Q (collect f l).
Proof.
  induction l as [|a l IH]; intros H; [split; [reflexivity | constructor]|].
  cbn [collect]. destruct (H a (or_introl eq_refl)) as [b [E Hb]]. rewrite E.
  destruct IH as [IH1 IH2]; [intros a' Ha'; apply H; now right|].
  split; [cbn [List.length]; now rewrite IH1 | now constructor].
Qed.

Lemma randomDuration_pos (r : Q) : 0 <= r -> 0 < randomDuration r.
Proof. intros H. unfold randomDuration. lra. Qed.

Lemma createAnimatedParticles_length (P : Platform) (rnd : nat) (mapping : SoundMapping)
  (x y size opacity amplitude now : Q) :
  List.length (createAnimatedParticles P rnd mapping x y size opacity amplitude now) =
  Z.to_nat (particleCount amplitude).
Proof. unfold createAnimatedParticles. now rewrite List.length_map, List.length_seq. Qed.

Lemma createAnimatedParticles_fresh (P : Platform) (rnd : nat) (mapping : SoundMapping)
  (x y size opacity amplitude now : Q) (p : Particle) :
  wellBehaved P ->
  List.In p (createAnimatedParticles P rnd mapping x y size opacity amplitude now) ->
  pstartTime p = now /\ 0 < pduration p /\ Renderer.size p = size * (2 # 10).
Proof.
  intros [Hrandom _] Hin. unfold createAnimatedParticles in Hin.
  apply List.in_map_iff in Hin as [i [<- _]]. cbn.
  repeat split. apply randomDuration_pos, Hrandom.
Qed.

(** A particle created in this tick has elapsed time 0. *)
Lemma zero_progress (now duration : Q) :
  0 < duration -> JS.ge (JS.min ((now - now) / duration) 1) 1 = false.
Proof.
  intros Hd. destruct (JS.ge _ 1) eqn:E; [|reflexivity].
  apply (progress_complete _ _ Hd) in E. lra.
Qed.

(** A shape created in this tick has not started yet when the loop runs. *)
Lemma early_progress (now start duration : Q) :
  now <= start -> 0 < duration ->
  JS.ge (JS.min ((now - start) / duration) 1) 1 = false.
Proof.
  intros Hs Hd. destruct (JS.ge _ 1) eqn:E; [|reflexivity].
  apply (progress_complete _ _ Hd) in E. lra.
Qed.

(** ** The clamp of the renderer without fade options *)

Lemma clamp_spec (raw lo hi : Q) :
  lo <= hi ->
  lo <= JS.min (JS.max raw lo) hi /\
  JS.min (JS.max raw lo) hi <= hi /\
  (lo <= raw -> raw <= hi -> JS.min (JS.max raw lo) hi == raw) /\
  (raw < lo -> JS.min (JS.max raw lo) hi == lo) /\
  (hi < raw -> JS.min (JS.max raw lo) hi == hi).
Proof.
  intros Hlohi. unfold JS.min, JS.max.
  destruct (Qle_bool raw lo) eqn:E1.
  - apply Qle_bool_iff in E1.
    apply Qle_bool_iff in Hlohi as E2. rewrite E2.
    repeat split; intros; lra.
  - assert (H1 : lo < raw).
    { apply Qnot_le_lt. intros H. apply Qle_bool_iff in H. congruence. }
    destruct (Qle_bool raw hi) eqn:E2.
    + apply Qle_bool_iff in E2. repeat split; intros; lra.
    + assert (H2 : hi < raw).
      { apply Qnot_le_lt. intros H. apply Qle_bool_iff in H. congruence. }
      repeat split; intros; lra.
Qed.

(** ** What a tick leaves in the lists *)

Lemma legacy_shapes_after (P : Platform) (now : Q) (st : LegacyRenderer.State) :
  LegacyRenderer.animatedShapes (LegacyRenderer.updateAnimatedElements P now st) =
  left (backwardsUntilThrow (LegacyRenderer.stepShape P (LegacyRenderer.animationTime st) now)
          (LegacyRenderer.animatedShapes st) (LegacyRenderer.rndCalls st)
          (LegacyRenderer.canvas st)).
Proof.
  unfold LegacyRenderer.updateAnimatedElements. cbv zeta.
  destruct (LegacyRenderer.thrown (LegacyRenderer.updateAnimatedShapes P now st));
    reflexivity.
Qed.

(** The particles are those of before when the shapes have thrown, and
    what the second loop leaves otherwise. *)
Lemma legacy_particles_after (P : Platform) (now : Q) (st : LegacyRenderer.State) :
  LegacyRenderer.particles (LegacyRenderer.updateAnimatedElements P now st) =
    LegacyRenderer.particles st \/
  exists rnd log,
    LegacyRenderer.particles (LegacyRenderer.updateAnimatedElements P now st) =
    left (backwardsUntilThrow (LegacyRenderer.stepParticle now)
            (LegacyRenderer.particles st) rnd log).
Proof.
  unfold LegacyRenderer.updateAnimatedElements. cbv zeta.
  destruct (LegacyRenderer.thrown (LegacyRenderer.updateAnimatedShapes P now st)).
  - left. reflexivity.
  - right. do 2 eexists. reflexivity.
Qed.

Lemma Forall2_length_Forall {A : Type} (R : A -> A -> Prop) (Q : A -> Prop) (l l' : list A) :
  List.Forall2 R l l' -> List.Forall Q l -> (forall a a', R a a' -> Q a -> Q a') ->
  List.length l' = List.length l /\ List.Forall Q l'.
Proof.
  intros H. induction H as [|a a' l l' Ha Hl IH]; intros HQ Hstep.
  - split; [reflexivity | constructor].
  - inversion HQ as [|? ? Qa Ql]; subst.
    destruct (IH Ql Hstep) as [IH1 IH2].
    split; [cbn; now rewrite IH1 | constructor; eauto].
Qed.

Lemma update_shapes (P : Platform) (now : Q) (st : VisualRenderer.State) :
  VisualRenderer.animatedShapes (VisualRenderer.updateAnimatedElements P now st) =
  collect (keptOf (VisualRenderer.stepShape P (VisualRenderer.currentOptions st)
                     (VisualRenderer.animationTime st) now))
    (VisualRenderer.animatedShapes st).
Proof.
  unfold VisualRenderer.updateAnimatedElements, VisualRenderer.updateParticles,
    VisualRenderer.updateAnimatedShapes.
  cbn [VisualRenderer.animatedShapes]. apply backwards_kept.
Qed.

Lemma update_particles (P : Platform) (now : Q) (st : VisualRenderer.State) :
  VisualRenderer.particles (VisualRenderer.updateAnimatedElements P now st) =
  collect (keptOf (VisualRenderer.stepParticle (VisualRenderer.currentOptions st) now))
    (VisualRenderer.particles st).
Proof.
  unfold VisualRenderer.updateAnimatedElements, VisualRenderer.updateParticles,
    VisualRenderer.updateAnimatedShapes.
  cbn [VisualRenderer.particles VisualRenderer.currentOptions]. apply backwards_kept.
Qed.

(** ** The renderer without fade options *)

Lemma Forall2_single {A : Type} (R : A -> A -> Prop) (a : A) (l : list A) :
  List.Forall2 R [a] l -> exists a', l = [a'] /\ R a a'.
Proof.
  intros H. inversion H as [|? a' ? rest Ha Hrest]; subst.
  inversion Hrest; subst. now exists a'.
Qed.

(** The shape spawned in a tick is looked at first and stays in the list,
    whether its drawing returns or throws. *)
Lemma legacy_new_shape_stays (P : Platform) (animationTime : Q) (rnd clock : nat)
  (type : ShapeType) (mapping : SoundMapping) (x y size opacity : Q)
  (olds : list AnimatedShape) (rnd' : nat) (log : list DrawCall) :
  wellBehaved P ->
  exists older shape',
    left (backwardsUntilThrow
            (LegacyRenderer.stepShape P animationTime (performance_now P clock))
            (olds ++ [createAnimatedShape P rnd (S clock) (8 # 10) type mapping x y size opacity])
            rnd' log) = (older ++ [shape'])%list /\
    Renderer.type shape' = type /\ baseSize shape' = size /\ baseOpacity shape' = opacity.
Proof.
  intros [Hrandom Hclock].
  set (new := createAnimatedShape P rnd (S clock) (8 # 10) type mapping x y size opacity).
  set (step := LegacyRenderer.stepShape P animationTime (performance_now P clock)).
  destruct (untilThrow_app_left step olds [new] rnd' log) as [older E].
  assert (Hd : 0 < duration new) by (apply randomDuration_pos, Hrandom).
  assert (H : List.Forall2
                (fun a a' => Renderer.type a' = Renderer.type a /\
                             baseSize a' = baseSize a /\ baseOpacity a' = baseOpacity a)
                [new] (left (backwardsUntilThrow step [new] rnd' log))).
  { apply untilThrow_keeps. intros a [<-|[]]. split; [repeat split|].
    destruct (legacy_stepShape_cases P animationTime (performance_now P clock) new Hd)
      as [[He _] | [_ [shape' (_ & _ & Hb & Ho & Ht & [[o [_ Es]] | [_ Es]])]]].
    - exfalso. unfold elapsed in He. cbn [startTime duration new createAnimatedShape] in He, Hd.
      pose proof (Hclock clock). lra.
    - fold step in Es. rewrite Es. auto.
    - fold step in Es. rewrite Es. auto. }
  destruct (Forall2_single _ _ _ H) as [shape' [E' (Ht & Hb & Ho)]].
  exists older, shape'. rewrite E, E'.
  split; [reflexivity|]. auto.
Qed.

Lemma legacy_new_particles_stay (P : Platform) (rnd : nat) (mapping : SoundMapping)
  (x y size opacity amplitude now : Q) (rnd' : nat) (log : list DrawCall) :
  wellBehaved P ->
  List.length
    (left (backwardsUntilThrow (LegacyRenderer.stepParticle now)
             (createAnimatedParticles P rnd mapping x y size opacity amplitude now) rnd' log)) =
    Z.to_nat (particleCount amplitude) /\
  List.Forall (fun p => Renderer.size p = size * (2 # 10))
    (left (backwardsUntilThrow (LegacyRenderer.stepParticle now)
             (createAnimatedParticles P rnd mapping x y size opacity amplitude now) rnd' log)).
Proof.
  intros HP.
  rewrite <- (createAnimatedParticles_length P rnd mapping x y size opacity amplitude now).
  apply (Forall2_length_Forall (fun a a' => Renderer.size a' = Renderer.size a)).
  - apply untilThrow_keeps. intros p Hin. split; [reflexivity|].
    destruct (createAnimatedParticles_fresh P rnd mapping x y size opacity amplitude now p HP Hin)
      as [Hstart [Hd Hsize]].
    destruct (legacy_stepParticle_cases now p Hd)
      as [[He _] | [_ [p' (_ & _ & Hs & [[_ Es] | [_ Es]])]]].
    + exfalso. unfold pelapsed in He. rewrite Hstart in He. lra.
    + now rewrite Es.
    + now rewrite Es.
  - apply List.Forall_forall. intros p Hin.
    now destruct (createAnimatedParticles_fresh P rnd mapping x y size opacity amplitude now
                    p HP Hin) as [_ [_ Hsize]].
  - intros a a' E Ha. now rewrite E.
Qed.

Lemma legacy_render_spawns (P : Platform) (st : LegacyRenderer.State) (mapping : SoundMapping)
  (f : AudioProcessor.AudioFeatures) (options : LegacyRenderer.RenderOptions) :
  wellBehaved P ->
  (1 # 100) <= AudioProcessor.amplitude f * LegacyRenderer.sensitivity options * 2 ->
  (forall type : ShapeType,
     shapeTypeOf (StorageService.visualType mapping) = Some type ->
     exists older shape',
       LegacyRenderer.animatedShapes (LegacyRenderer.render P st mapping f options) =
         (older ++ [shape'])%list /\
       Renderer.type shape' = type /\
       baseSize shape' =
         StorageService.sizeBase mapping *
         (1 + AudioProcessor.amplitude f * LegacyRenderer.sensitivity options * 2 * 3) /\
       baseOpacity shape' =
         LegacyRenderer.spawnOpacity mapping options
           (AudioProcessor.amplitude f * LegacyRenderer.sensitivity options * 2)) /\
  (StorageService.visualType mapping = StorageService.particle ->
   exists older created,
     LegacyRenderer.particles (LegacyRenderer.render P st mapping f options) =
       (older ++ created)%list /\
     List.length created =
       Z.to_nat (particleCount
                   (AudioProcessor.amplitude f * LegacyRenderer.sensitivity options * 2)) /\
     List.Forall
       (fun p => Renderer.size p =
                 StorageService.sizeBase mapping *
                 (1 + AudioProcessor.amplitude f * LegacyRenderer.sensitivity options * 2 * 3) *
                 (2 # 10))
       created).
Proof.
  intros HP Hloud. unfold LegacyRenderer.render.
  apply lt_false in Hloud. rewrite Hloud.
  set (a := AudioProcessor.amplitude f * LegacyRenderer.sensitivity options * 2).
  split.
  - intros type Htype. rewrite legacy_shapes_after.
    unfold LegacyRenderer.spawn.
    cbn [LegacyRenderer.rndCalls LegacyRenderer.nowCalls LegacyRenderer.animatedShapes
         LegacyRenderer.canvasWidth LegacyRenderer.canvasHeight LegacyRenderer.particles
         LegacyRenderer.animationTime LegacyRenderer.lastFrameTime LegacyRenderer.canvas].
    destruct (StorageService.visualType mapping); cbn in Htype; try discriminate;
      injection Htype as <-;
      cbn [LegacyRenderer.animatedShapes LegacyRenderer.animationTime LegacyRenderer.rndCalls
           LegacyRenderer.canvas];
      apply legacy_new_shape_stays; exact HP.
  - intros Hparticle.
    match goal with
    | |- context [LegacyRenderer.updateAnimatedElements P ?now ?s] =>
        destruct (legacy_particles_after P now s) as [E | [rnd' [log E]]]; rewrite E; clear E
    end;
      unfold LegacyRenderer.spawn; rewrite Hparticle;
      cbn [LegacyRenderer.rndCalls LegacyRenderer.nowCalls LegacyRenderer.animatedShapes
           LegacyRenderer.canvasWidth LegacyRenderer.canvasHeight LegacyRenderer.particles
           LegacyRenderer.animationTime LegacyRenderer.lastFrameTime LegacyRenderer.canvas].
    + do 2 eexists. split; [reflexivity|]. split.
      * apply createAnimatedParticles_length.
      * apply List.Forall_forall. intros p Hin.
        now destruct (createAnimatedParticles_fresh P _ mapping _ _ _ _ _ _ p HP Hin)
          as [_ [_ Hsize]].
    + match goal with
      | |- context [backwardsUntilThrow ?step (?olds ++ ?news) ?r ?l] =>
          destruct (untilThrow_app_left step olds news r l) as [older E]; rewrite E;
          exists older, (left (backwardsUntilThrow step news r l))
      end.
      split; [reflexivity|]. apply legacy_new_particles_stay. exact HP.
Qed.

(** ** The fade-aware renderer *)

Lemma new_shape_kept (P : Platform) (options : VisualRenderer.RenderOptions)
  (animationTime : Q) (rnd clock : nat)
  (type : ShapeType) (mapping : SoundMapping) (x y size opacity : Q) :
  (VisualRenderer.fadeEnabled options = true ->
   wellBehaved P /\ 0 <= VisualRenderer.fadeDuration options) ->
  exists shape',
    keptOf (VisualRenderer.stepShape P options animationTime (performance_now P clock))
      (createAnimatedShape P rnd (S clock) (12 # 10) type mapping x y size opacity) =
    Some shape' /\
    Renderer.type shape' = type /\ baseSize shape' = size /\ baseOpacity shape' = opacity.
Proof.
  intros Hfade. unfold keptOf, VisualRenderer.stepShape.
  cbn [startTime duration createAnimatedShape].
  destruct (VisualRenderer.fadeEnabled options) eqn:E.
  - destruct (Hfade eq_refl) as [[Hrandom Hclock] HD]. pose proof (Hclock clock) as Hc.
    assert (Hin : JS.gt (performance_now P clock - performance_now P (S clock))
                    (VisualRenderer.fadeDuration options + 1500) = false)
      by (apply gt_false; lra).
    rewrite Hin. eexists. split; [reflexivity|]. cbn. repeat split.
  - destruct (JS.ge _ 1); eexists; (split; [reflexivity|]); cbn; repeat split.
Qed.

(** The shape list after a tick that spawns a shape: the survivors of the
    old list, then the new shape. *)
Lemma render_spawn_shape (P : Platform) (st : VisualRenderer.State) (mapping : SoundMapping)
  (f : AudioProcessor.AudioFeatures) (options : VisualRenderer.RenderOptions)
  (type : ShapeType) :
  (VisualRenderer.fadeEnabled options = true ->
   wellBehaved P /\ 0 <= VisualRenderer.fadeDuration options) ->
  (2 # 100) <= AudioProcessor.amplitude f * VisualRenderer.sensitivity options ->
  shapeTypeOf (StorageService.visualType mapping) = Some type ->
  exists shape',
    VisualRenderer.animatedShapes (VisualRenderer.render P st mapping f options) =
      (collect
         (keptOf (VisualRenderer.stepShape P options
                    (VisualRenderer.animationTime st +
                     (performance_now P (VisualRenderer.nowCalls st) -
                      VisualRenderer.lastFrameTime st) / 1000)
                    (performance_now P (VisualRenderer.nowCalls st))))
         (VisualRenderer.animatedShapes st) ++ [shape'])%list /\
    Renderer.type shape' = type /\
    baseSize shape' =
      JS.max (StorageService.sizeBase mapping *
              (1 + AudioProcessor.amplitude f * VisualRenderer.sensitivity options * 3)) 40 /\
    baseOpacity shape' = 8 # 10.
Proof.
  intros Hfade Hloud Htype. unfold VisualRenderer.render. cbv zeta.
  apply lt_false in Hloud. rewrite Hloud.
  rewrite update_shapes. unfold VisualRenderer.spawn.
  cbn [VisualRenderer.rndCalls VisualRenderer.nowCalls VisualRenderer.animatedShapes
       VisualRenderer.canvasWidth VisualRenderer.canvasHeight VisualRenderer.particles
       VisualRenderer.animationTime VisualRenderer.lastFrameTime VisualRenderer.canvas
       VisualRenderer.currentOptions].
  destruct (StorageService.visualType mapping); cbn in Htype; try discriminate;
    injection Htype as <-;
    cbn [VisualRenderer.animatedShapes VisualRenderer.animationTime
         VisualRenderer.currentOptions];
    rewrite collect_app; cbn [collect];
    match goal with
    | |- context [keptOf (VisualRenderer.stepShape P options ?t (performance_now P ?c))
                    (createAnimatedShape P ?r (S ?c) _ ?ty mapping ?x ?y ?s ?o)] =>
        destruct (new_shape_kept P options t r c ty mapping x y s o Hfade)
          as [shape' [E [Hty [Hsize Hop]]]]; rewrite E
    end;
    eexists; (split; [reflexivity|]); auto.
Qed.

Lemma new_particles_kept (P : Platform) (options : VisualRenderer.RenderOptions)
  (rnd : nat) (mapping : SoundMapping) (x y size opacity amplitude now : Q) :
  wellBehaved P ->
  (VisualRenderer.fadeEnabled options = true -> 0 <= VisualRenderer.fadeDuration options) ->
  List.length
    (collect (keptOf (VisualRenderer.stepParticle options now))
       (createAnimatedParticles P rnd mapping x y size opacity amplitude now)) =
    Z.to_nat (particleCount amplitude) /\
  List.Forall (fun p => Renderer.size p = size * (2 # 10))
    (collect (keptOf (VisualRenderer.stepParticle options now))
       (createAnimatedParticles P rnd mapping x y size opacity amplitude now)).
Proof.
  intros HP Hfade.
  rewrite <- (createAnimatedParticles_length P rnd mapping x y size opacity amplitude now).
  apply collect_all. intros p Hin.
  destruct (createAnimatedParticles_fresh P rnd mapping x y size opacity amplitude now p HP Hin)
    as [Hstart [Hd Hsize]].
  unfold keptOf, VisualRenderer.stepParticle. rewrite Hstart.
  destruct (VisualRenderer.fadeEnabled options) eqn:E.
  - specialize (Hfade eq_refl).
    assert (Hin' : JS.gt (now - now) (VisualRenderer.fadeDuration options + 1500) = false)
      by (apply gt_false; lra).
    rewrite Hin'. eexists. split; [reflexivity|]. cbn. exact Hsize.
  - rewrite zero_progress by assumption.
    eexists. split; [reflexivity|]. cbn. exact Hsize.
Qed.

Lemma render_spawns (P : Platform) (st : VisualRenderer.State) (mapping : SoundMapping)
  (f : AudioProcessor.AudioFeatures) (options : VisualRenderer.RenderOptions) :
  wellBehaved P ->
  (VisualRenderer.fadeEnabled options = true -> 0 <= VisualRenderer.fadeDuration options) ->
  (2 # 100) <= AudioProcessor.amplitude f * VisualRenderer.sensitivity options ->
  (forall type : ShapeType,
     shapeTypeOf (StorageService.visualType mapping) = Some type ->
     exists older shape',
       VisualRenderer.animatedShapes (VisualRenderer.render P st mapping f options) =
         (older ++ [shape'])%list /\
       Renderer.type shape' = type /\
       baseSize shape' =
         JS.max (StorageService.sizeBase mapping *
                 (1 + AudioProcessor.amplitude f * VisualRenderer.sensitivity options * 3)) 40 /\
       baseOpacity shape' = 8 # 10) /\
  (StorageService.visualType mapping = StorageService.particle ->
   exists older created,
     VisualRenderer.particles (VisualRenderer.render P st mapping f options) =
       (older ++ created)%list /\
     List.length created =
       Z.to_nat (particleCount (AudioProcessor.amplitude f * VisualRenderer.sensitivity options)) /\
     List.Forall
       (fun p => Renderer.size p =
                 JS.max (StorageService.sizeBase mapping *
                         (1 + AudioProcessor.amplitude f * VisualRenderer.sensitivity options * 3))
                   40 * (2 # 10))
       created).
Proof.
  intros HP Hfade Hloud. split.
  - intros type Htype.
    destruct (render_spawn_shape P st mapping f options type) as [shape' [E H]];
      auto.
    eexists _, shape'. split; [exact E | exact H].
  - intros Hparticle. unfold VisualRenderer.render. cbv zeta.
    apply lt_false in Hloud. rewrite Hloud.
    rewrite update_particles.
    unfold VisualRenderer.spawn. rewrite Hparticle.
    cbn [VisualRenderer.rndCalls VisualRenderer.nowCalls VisualRenderer.animatedShapes
         VisualRenderer.canvasWidth VisualRenderer.canvasHeight VisualRenderer.particles
         VisualRenderer.animationTime VisualRenderer.lastFrameTime VisualRenderer.canvas
         VisualRenderer.currentOptions].
    rewrite collect_app.
    match goal with
    | |- context [collect _ (createAnimatedParticles P ?r mapping ?x ?y ?s ?o ?am ?n)] =>
        destruct (new_particles_kept P options r mapping x y s o am n HP Hfade) as [Hlen Hall]
    end.
    do 2 eexists. split; [reflexivity|]. split; [exact Hlen | exact Hall].
Qed.

(** C6 (as amended).  On a tick whose scaled amplitude reaches the spawn
    threshold, the renderer without fade options gives the spawned shape
    the base size [sizeBase * (1 + scaledAmplitude * 3)] (a fifth of it to
    each spawned particle) and the base opacity
    [opacityBase * globalOpacity * (0.3 + scaledAmplitude * 1.5)] clamped
    to [0.2, 1], where the scaled amplitude is
    [amplitude * sensitivity * 2].  The fade-aware renderer, whose scaled
    amplitude is [amplitude * sensitivity], gives the base size
    [max(sizeBase * (1 + scaledAmplitude * 3), 40)] and the constant base
    opacity 0.8. *)
Theorem spawned_entity_size_and_opacity :
  (forall (P : Platform) (st : LegacyRenderer.State) (mapping : SoundMapping)
          (f : AudioProcessor.AudioFeatures) (options : LegacyRenderer.RenderOptions),
     wellBehaved P ->
     (1 # 100) <= AudioProcessor.amplitude f * LegacyRenderer.sensitivity options * 2 ->
     (forall type : ShapeType,
        shapeTypeOf (StorageService.visualType mapping) = Some type ->
        exists older shape',
          LegacyRenderer.animatedShapes (LegacyRenderer.render P st mapping f options) =
            (older ++ [shape'])%list /\
          Renderer.type shape' = type /\
          baseSize shape' =
            StorageService.sizeBase mapping *
            (1 + AudioProcessor.amplitude f * LegacyRenderer.sensitivity options * 2 * 3) /\
          baseOpacity shape' =
            LegacyRenderer.spawnOpacity mapping options
              (AudioProcessor.amplitude f * LegacyRenderer.sensitivity options * 2)) /\
     (StorageService.visualType mapping = StorageService.particle ->
      exists older created,
        LegacyRenderer.particles (LegacyRenderer.render P st mapping f options) =
          (older ++ created)%list /\
        List.length created =
          Z.to_nat (particleCount
                      (AudioProcessor.amplitude f * LegacyRenderer.sensitivity options * 2)) /\
        List.Forall
          (fun p => Renderer.size p =
                    StorageService.sizeBase mapping *
                    (1 + AudioProcessor.amplitude f * LegacyRenderer.sensitivity options * 2 * 3) *
                    (2 # 10))
          created)) /\
  (forall (mapping : SoundMapping) (options : LegacyRenderer.RenderOptions) (a : Q),
     LegacyRenderer.spawnOpacity mapping options a =
       JS.min (JS.max (StorageService.opacityBase mapping * LegacyRenderer.globalOpacity options *
                       ((3 # 10) + a * (15 # 10))) (2 # 10)) 1 /\
     (2 # 10) <= LegacyRenderer.spawnOpacity mapping options a /\
     LegacyRenderer.spawnOpacity mapping options a <= 1 /\
     ((2 # 10) <= StorageService.opacityBase mapping * LegacyRenderer.globalOpacity options *
                  ((3 # 10) + a * (15 # 10)) ->
      StorageService.opacityBase mapping * LegacyRenderer.globalOpacity options *
        ((3 # 10) + a * (15 # 10)) <= 1 ->
      LegacyRenderer.spawnOpacity mapping options a ==
        StorageService.opacityBase mapping * LegacyRenderer.globalOpacity options *
        ((3 # 10) + a * (15 # 10)))) /\
  (forall (P : Platform) (st : VisualRenderer.State) (mapping : SoundMapping)
          (f : AudioProcessor.AudioFeatures) (options : VisualRenderer.RenderOptions),
     wellBehaved P ->
     (VisualRenderer.fadeEnabled options = true -> 0 <= VisualRenderer.fadeDuration options) ->
     (2 # 100) <= AudioProcessor.amplitude f * VisualRenderer.sensitivity options ->
     (forall type : ShapeType,
        shapeTypeOf (StorageService.visualType mapping) = Some type ->
        exists older shape',
          VisualRenderer.animatedShapes (VisualRenderer.render P st mapping f options) =
            (older ++ [shape'])%list /\
          Renderer.type shape' = type /\
          baseSize shape' =
            JS.max (StorageService.sizeBase mapping *
                    (1 + AudioProcessor.amplitude f * VisualRenderer.sensitivity options * 3)) 40 /\
          baseOpacity shape' = 8 # 10) /\
     (StorageService.visualType mapping = StorageService.particle ->
      exists older created,
        VisualRenderer.particles (VisualRenderer.render P st mapping f options) =
          (older ++ created)%list /\
        List.length created =
          Z.to_nat (particleCount
                      (AudioProcessor.amplitude f * VisualRenderer.sensitivity options)) /\
        List.Forall
          (fun p => Renderer.size p =
                    JS.max (StorageService.sizeBase mapping *
                            (1 + AudioProcessor.amplitude f * VisualRenderer.sensitivity options * 3))
                      40 * (2 # 10))
          created)).
Proof.
  split; [exact legacy_render_spawns|]. split; [|exact render_spawns].
  intros mapping options a. split; [reflexivity|].
  unfold LegacyRenderer.spawnOpacity.
  destruct (clamp_spec (StorageService.opacityBase mapping * LegacyRenderer.globalOpacity options *
                        ((3 # 10) + a * (15 # 10))) (2 # 10) 1 ltac:(lra))
    as [H1 [H2 [H3 _]]].
  auto.
Qed.

End Spawning.
(* ===================================================================== *)
(** * Retirement over whole ticks *)
(* ===================================================================== *)

Section Ticks.

Import Renderer Spec.











End Ticks.
(* ===================================================================== *)
(** * The theorems at sample inputs *)
(* ===================================================================== *)

Section Samples.

Import Renderer Spec.

Lemma sample_platform_wellBehaved : wellBehaved Sample.platform.
Proof.
  split.
  - intros n. cbn. split; lra.
  - intros n. cbn. rewrite <- Zle_Qle. lia.
Qed.

(** ** C2 *)

Lemma fade_window_per_entity_witness :
  (2000 <= 4500 ->
   exists shape' size opacity n,
     VisualRenderer.stepShape Sample.platform (Sample.options true) 0 2000 (Sample.shapeAt 0) =
       Some (shape', DrawShape shape' size opacity, n) /\
     (2000 <= 3000 -> opacity = baseOpacity (Sample.shapeAt 0)) /\
     (3000 < 2000 -> opacity == baseOpacity (Sample.shapeAt 0) * (1 - (2000 - 3000) / 1500)) /\
     (2000 == 4500 -> opacity == 0)) /\
  (4500 < 2000 ->
   VisualRenderer.stepShape Sample.platform (Sample.options true) 0 2000 (Sample.shapeAt 0) = None).
Proof.
  apply (proj2 (proj2 fade_window_per_entity) Sample.platform (Sample.options true) 0 2000
           (Sample.shapeAt 0)); reflexivity.
Defined.

(** C2, the claim as stated fails: the fade window is not shared.  Of two
    shapes with the same base opacity 0.8, spawned at 0 and at 2000, the
    tick at 4000 draws the younger one (visited first) at 0.8 and the
    older one at 0.8 / 3; the tick at 5000 removes the older one and still
    draws the younger one at 0.8.  Particles behave alike. *)
Lemma fade_window_differs_between_entities :
  (forall P : Platform,
     List.map (fun call => Qred (callOpacity call))
       (VisualRenderer.canvas
          (VisualRenderer.updateAnimatedShapes P 4000
             (Sample.state true [Sample.shapeAt 0; Sample.shapeAt 2000] []))) =
     [4 # 5; 4 # 15]%Q /\
     List.map startTime
       (VisualRenderer.animatedShapes
          (VisualRenderer.updateAnimatedShapes P 5000
             (Sample.state true [Sample.shapeAt 0; Sample.shapeAt 2000] []))) =
     [2000]) /\
  List.map (fun call => Qred (callOpacity call))
    (VisualRenderer.canvas
       (VisualRenderer.updateParticles 4000
          (Sample.state true [] [Sample.particleAt 0; Sample.particleAt 2000]))) =
  [1; 1 # 3]%Q.
Proof.
  split; [intros P; split|]; vm_compute; reflexivity.
Qed.

(** ** C3 *)



(** ** C6 *)

Lemma spawned_entity_size_and_opacity_witness :
  exists older shape',
    LegacyRenderer.animatedShapes
      (LegacyRenderer.render Sample.platform (Sample.legacyState [] []) Sample.mapping
         Sample.features Sample.legacyOptions) = (older ++ [shape'])%list /\
    Renderer.type shape' = geometric /\
    baseSize shape' =
      StorageService.sizeBase Sample.mapping *
      (1 + AudioProcessor.amplitude Sample.features *
           LegacyRenderer.sensitivity Sample.legacyOptions * 2 * 3) /\
    baseOpacity shape' =
      LegacyRenderer.spawnOpacity Sample.mapping Sample.legacyOptions
        (AudioProcessor.amplitude Sample.features *
         LegacyRenderer.sensitivity Sample.legacyOptions * 2).
Proof.
  apply (proj1 (proj1 spawned_entity_size_and_opacity Sample.platform (Sample.legacyState [] [])
                  Sample.mapping Sample.features Sample.legacyOptions
                  sample_platform_wellBehaved ltac:(vm_compute; discriminate))).
  reflexivity.
Defined.

(** C6, the claim as stated fails in the fade-aware renderer: for
    [sizeBase = 10] and a scaled amplitude of 0.5 the formula gives 25,
    but the spawned shape has base size 40 and base opacity 0.8, whatever
    the mapping's [opacityBase] and the global opacity. *)
Lemma fade_aware_spawn_ignores_formula :
  (forall P : Platform,
     exists shape',
       VisualRenderer.animatedShapes
         (VisualRenderer.render P (Sample.state false [] []) Sample.mapping
            Sample.features (Sample.options false)) = [shape'] /\
       baseSize shape' = 40 /\ baseOpacity shape' = 8 # 10) /\
  StorageService.sizeBase Sample.mapping *
    (1 + AudioProcessor.amplitude Sample.features *
         VisualRenderer.sensitivity (Sample.options false) * 3) == 25.
Proof.
  split; [|reflexivity].
  intros P.
  destruct (render_spawn_shape P (Sample.state false [] []) Sample.mapping Sample.features
              (Sample.options false) geometric) as [shape' [E [_ [Hsize Hop]]]].
  - discriminate.
  - vm_compute. discriminate.
  - reflexivity.
  - exists shape'. split; [exact E|]. split; [exact Hsize | exact Hop].
Qed.

End Samples.
